(** * subdue.sub._main: the sub-command resolver

    A shallow embedding of [src/subdue/sub/_main.py] and the properties of
    its command resolution ([find_command_path]) and of the entry point
    ([main]) built on it.

    Modelling choices.
    - Python [str] is [string]; a list of tokens is [list string].
    - The file system is an oracle [FS] answering the two probes the code
      makes, [os.path.isdir] and [os.access(_, os.X_OK)].  [os.path.isdir]
      always answers; [os.access] answers or raises [ValueError], as it
      does on a path with an embedded null character.  Nothing relates the
      two answers, as on a real system, where a searchable directory
      answers yes to both.
    - [find_command_path] runs in a small monad [M] that reads the oracle,
      logs every probe in order and propagates Python exceptions.
    - The command runner that [main] is given, or [os.execvp] by default,
      is a function of the argument vector that says what it wrote and how
      it ended: returned, exited, raised, or replaced the process.
    - A local variable that Python may read before it was ever assigned
      ([is_dir]) is an [option]: [None] is "unbound".
    - Attributes of [Command] that the code sets to [None] are [option]s. *)

From Stdlib Require Import String Ascii List Bool Arith Lia.
Import ListNotations.
Local Open Scope string_scope.
Local Open Scope list_scope.

(** ** Strings and [posixpath] *)

Definition newline : string := String (ascii_of_nat 10) EmptyString.

(** [s.startswith(pre)] *)
Definition startswith (s pre : string) : bool := String.prefix pre s.

(** ['\0' in s] *)
Fixpoint has_nul (s : string) : bool :=
  match s with
  | EmptyString => false
  | String c r => Ascii.eqb c zero || has_nul r
  end.

(** [s.endswith('/')] *)
Fixpoint endswith_slash (s : string) : bool :=
  match s with
  | EmptyString => false
  | String c EmptyString => Ascii.eqb c "/"
  | String _ r => endswith_slash r
  end.

Module PosixPath.

(** [posixpath.join(a, b)] with two arguments. *)
Definition join (a b : string) : string :=
  if startswith b "/" then b
  else if (String.eqb a "" || endswith_slash a)%bool then a ++ b
  else a ++ "/" ++ b.

(** [(p[:i], p[i:])] for [i = p.rfind('/') + 1]. *)
Fixpoint rsplit (p : string) : string * string :=
  match p with
  | EmptyString => ("", "")
  | String c r =>
      let (h, t) := rsplit r in
      if Ascii.eqb c "/" then (String c h, t)
      else if String.eqb h "" then ("", String c t)
      else (String c h, t)
  end.

(** [s.rstrip('/')] *)
Fixpoint rstrip_slash (s : string) : string :=
  match s with
  | EmptyString => ""
  | String c r =>
      let r' := rstrip_slash r in
      if (Ascii.eqb c "/" && String.eqb r' "")%bool then "" else String c r'
  end.

Definition basename (p : string) : string := snd (rsplit p).

(** [head != '/' * len(head)] is [rstrip_slash head <> ""]; an empty
    [head] is returned as it is. *)
Definition dirname (p : string) : string :=
  let head := fst (rsplit p) in
  if String.eqb (rstrip_slash head) "" then head else rstrip_slash head.

End PosixPath.

(** ** The file-system oracle and the probe monad *)

Record FS := {
  fs_isdir : string -> bool;                 (* os.path.isdir(p) *)
  fs_access_X_OK : string -> option bool     (* os.access(p, os.X_OK);
                                                None: it raises ValueError *)
}.

Inductive Probe :=
| IsDir (p : string)
| AccessX (p : string).

Inductive exn :=
| IndexError
| UnboundLocalError
| TypeError
| ValueError
| KeyError
| OSError
| OtherException (name : string).

Inductive result (A : Type) :=
| Ok (a : A)
| Raise (e : exn).
Arguments Ok {A} a.
Arguments Raise {A} e.

(** A computation reads the oracle, appends to the log of probes and
    either yields a value or raises. *)
Definition M (A : Type) : Type := FS -> list Probe -> result A * list Probe.

Definition ret {A} (a : A) : M A := fun _ tr => (Ok a, tr).
Definition raise {A} (e : exn) : M A := fun _ tr => (Raise e, tr).
Definition bind {A B} (m : M A) (k : A -> M B) : M B :=
  fun fs tr =>
    match m fs tr with
    | (Ok a, tr') => k a fs tr'
    | (Raise e, tr') => (Raise e, tr')
    end.

Notation "x <- m ;; k" := (bind m (fun x => k))
  (at level 61, m at next level, right associativity).

Definition isdir (p : string) : M bool :=
  fun fs tr => (Ok (fs_isdir fs p), tr ++ [IsDir p]).
Definition access_X_OK (p : string) : M bool :=
  fun fs tr =>
    (match fs_access_X_OK fs p with Some b => Ok b | None => Raise ValueError end,
     tr ++ [AccessX p]).

(** [s[0]]: [IndexError] on the empty string. *)
Definition getitem0 (s : string) : M ascii :=
  match s with
  | EmptyString => raise IndexError
  | String c _ => ret c
  end.

(** Run from an empty log. *)
Definition run {A} (fs : FS) (m : M A) : result A * list Probe := m fs [].

(** ** [class SubPaths] *)

(** What the code takes from the interpreter and the operating system: the
    script found by [_find_calling_script] on the call stack,
    [os.path.abspath], [sys.argv], and [os.execvp(file, args)], which
    either replaces the process by the command ([None]: it does not come
    back) or raises. *)
Record Env := {
  calling_script : string;
  abspath : string -> string;
  sys_argv : list string;
  os_execvp : option string -> list (option string) -> option exn
}.

Module SubPaths.
Record t := mk {
  name : string;
  bin : string;
  root : string;
  commands : string;
  lib : string
}.

Definition init (env : Env) (root : option string) : t :=
  let name := PosixPath.basename (calling_script env) in
  let bin := PosixPath.dirname (abspath env (calling_script env)) in
  let root := match root with None => PosixPath.dirname bin | Some r => r end in
  mk name bin root (PosixPath.join root "commands") (PosixPath.join root "lib").
End SubPaths.

(** ** [class Command] *)

Module Command.
Record t := mk {
  tokens : list string;
  path : option string;
  is_sh : option bool;
  is_container : option bool;
  arguments : option (list string)
}.

(** [__init__(self, tokens, path, is_sh, is_container, arguments)] *)
Definition init (tokens : list string) (path : option string)
    (is_sh is_container : option bool) (arguments : option (list string)) : t :=
  mk tokens path is_sh is_container arguments.

(** [self.tokens[-1].startswith('sh-')]; [tokens[-1]] raises on []. *)
Definition is_eval (c : t) : result bool :=
  match rev (tokens c) with
  | [] => Raise IndexError
  | last :: _ => Ok (startswith last "sh-")
  end.

Definition found_with_sh (c : t) : option bool := is_sh c.

(** [self.path is not None] *)
Definition found (c : t) : bool :=
  match path c with None => false | Some _ => true end.

(** [' '.join(self.tokens)] *)
Definition command (c : t) : string := String.concat " " (tokens c).

Definition create_not_found (tokens : list string) : t :=
  init tokens None None None None.

(** [runner([self.path] + self.arguments)]: the argument vector, or
    [TypeError] when [arguments] is [None]. *)
Definition run_with (c : t) : result (list (option string)) :=
  match arguments c with
  | Some args => Ok (path c :: map Some args)
  | None => Raise TypeError
  end.
End Command.

(** Truth value of an attribute that is [None], [True] or [False]. *)
Definition truthy (b : option bool) : bool :=
  match b with Some true => true | _ => false end.

(** ** [mkcmd] and [find_command_path] *)

Definition mkcmd (command : string) (sh_flag : bool) : string :=
  if sh_flag then "sh-" ++ command else command.

(** The local variables of [find_command_path] that live across
    iterations. *)
Record Locals := mkLocals {
  running_path : string;
  shift : nat;
  command : list string;
  is_sh : bool;
  is_dir : option bool       (* None: not assigned yet *)
}.

(** How one pass through the loop body ends. *)
Inductive Ctl :=
| Continue (st : Locals)
| Break (st : Locals)
| Return (c : Command.t).

(** The body of [for (shift, token) in enumerate(argv)]. *)
Definition body (st : Locals) (i : nat) (token : string) : M Ctl :=
  let '(mkLocals running_path _ command is_sh is_dir) := st in
  let shift := i in
  c <- getitem0 token ;;
  if Ascii.eqb c "-" then ret (Break (mkLocals running_path shift command is_sh is_dir))
  else
    let command := command ++ [token] in
    let possible_path := PosixPath.join running_path token in
    let is_dir := Some false in
    d <- isdir possible_path ;;
    if d then
      ret (Continue (mkLocals possible_path shift command is_sh (Some true)))
    else
      x <- access_X_OK possible_path ;;
      if x then
        ret (Break (mkLocals possible_path shift command is_sh is_dir))
      else
        let possible_path_sh := PosixPath.join running_path (mkcmd token true) in
        xs <- access_X_OK possible_path_sh ;;
        if xs then
          ret (Break (mkLocals possible_path_sh shift command true is_dir))
        else
          ret (Return (Command.create_not_found command)).

(** The loop over the tokens still to be enumerated, [i] being the index of
    the first of them.  Running out of tokens leaves the loop like [break]. *)
Fixpoint for_enumerate (i : nat) (toks : list string) (st : Locals) : M Ctl :=
  match toks with
  | [] => ret (Break st)
  | token :: toks' =>
      c <- body st i token ;;
      match c with
      | Continue st' => for_enumerate (S i) toks' st'
      | Break st' => ret (Break st')
      | Return r => ret (Return r)
      end
  end.

(** The statement after the loop:
    [return Command(command, running_path, is_sh, is_dir, argv[shift+1:])]. *)
Definition after_loop (argv : list string) (st : Locals) : M Command.t :=
  match is_dir st with
  | None => raise UnboundLocalError
  | Some d =>
      ret (Command.init (command st) (Some (running_path st)) (Some (is_sh st))
             (Some d) (Some (skipn (shift st + 1) argv)))
  end.

Definition find_command_path (argv : list string) (paths : SubPaths.t)
    (start_dir : option string) : M Command.t :=
  let running_path :=
    match start_dir with None => SubPaths.commands paths | Some d => d end in
  c <- for_enumerate 0 argv (mkLocals running_path 0 [] false None) ;;
  match c with
  | Return r => ret r
  | Break st | Continue st => after_loop argv st
  end.

(** ** [die] and [main] *)

(** What a run of [main] leaves behind: the two output streams and the
    argument vectors handed to the command runner. *)
Record Output := mkOutput {
  stdout : string;
  stderr : string;
  runner_calls : list (list (option string))
}.

Inductive Termination :=
| Returns (v : option nat)      (* main returned v *)
| SystemExit (code : nat)       (* sys.exit(code) *)
| Raises (e : exn)
| ProcessReplaced.              (* os.execvp went through: the process is
                                   the command from now on *)

(** A command runner: a callable taking the argument vector.  It may write
    on the two streams, and it returns, exits, raises or replaces the
    process. *)
Definition Runner : Type := list (option string) -> string * string * Termination.

(** [os.execvp(args[0], args)] *)
Definition execvp_runner (env : Env) : Runner :=
  fun args =>
    match args with
    | [] => ("", "", Raises IndexError)
    | a0 :: _ =>
        match os_execvp env a0 args with
        | None => ("", "", ProcessReplaced)
        | Some e => ("", "", Raises e)
        end
    end.

(** [kwargs.get('command_runner', execvp_runner)] *)
Definition api_runner (env : Env) (command_runner : option Runner) : Runner :=
  match command_runner with Some r => r | None => execvp_runner env end.

(** How [main] ends after the call of the runner, the last statement of
    [main]: it returns [None] when the runner returns, whatever the runner
    returned, and ends as the runner ends otherwise. *)
Definition after_runner (t : Termination) : Termination :=
  match t with Returns _ => Returns None | _ => t end.

Definition die (error : string) (o : Output) : Output * Termination :=
  (mkOutput (stdout o) (stderr o ++ error ++ newline) (runner_calls o),
   SystemExit 1).

(** [print("subdue help"); return True] *)
Definition command_help (o : Output) : Output * bool :=
  (mkOutput (stdout o ++ "subdue help" ++ newline) (stderr o) (runner_calls o),
   true).

Definition main (env : Env) (fs : FS) (argv : option (list string))
    (root_path : option string) (command_runner : option Runner) :
    Output * Termination :=
  let o := mkOutput "" "" [] in
  let argv := match argv with None => tl (sys_argv env) | Some a => a end in
  let paths := SubPaths.init env root_path in
  if (Nat.ltb (List.length argv) 1
      || match argv with
         | a0 :: _ => existsb (String.eqb a0) ["-h"; "--help"]
         | [] => false
         end)%bool
  then
    let (o, r) := command_help o in
    (o, Returns (Some (if r then 0 else 1)))
  else
    match run fs (find_command_path argv paths None) with
    | (Raise e, _) => (o, Raises e)
    | (Ok command, _) =>
        if negb (Command.found command) then
          die (SubPaths.name paths ++ ": no such command `"
                 ++ Command.command command ++ "'") o
        else if truthy (Command.is_container command) then
          die (SubPaths.name paths ++ ": can't run a container `"
                 ++ Command.command command ++ "'") o
        else
          match Command.run_with command with
          | Ok args =>
              let '(out, err, t) := api_runner env command_runner args in
              (mkOutput (stdout o ++ out) (stderr o ++ err) (runner_calls o ++ [args]),
               after_runner t)
          | Raise e => (o, Raises e)
          end
    end.

(** ** The three outcomes of a resolution, as [main] tells them apart *)

Definition is_not_found (c : Command.t) : bool := negb (Command.found c).
Definition is_container_result (c : Command.t) : bool :=
  Command.found c && truthy (Command.is_container c).
Definition is_leaf (c : Command.t) : bool :=
  Command.found c && negb (truthy (Command.is_container c)).

(** ** Concrete trees *)

(** An entry of a concrete tree: a directory (searchable or not) or a
    regular file (with or without an execute permission). *)
Inductive Entry :=
| Directory (searchable : bool)
| File (executable : bool).

Fixpoint lookup (p : string) (tree : list (string * Entry)) : option Entry :=
  match tree with
  | [] => None
  | (q, e) :: tree' => if String.eqb p q then Some e else lookup p tree'
  end.

(** The oracle of a tree listed path by path.  [os.access(p, X_OK)] holds
    of a searchable directory as of an executable file.  On a path with an
    embedded null character [os.path.isdir] answers no and [os.access]
    raises. *)
Definition fs_of (tree : list (string * Entry)) : FS :=
  {| fs_isdir := fun p =>
       if has_nul p then false
       else match lookup p tree with Some (Directory _) => true | _ => false end;
     fs_access_X_OK := fun p =>
       if has_nul p then None
       else match lookup p tree with
            | Some (Directory x) | Some (File x) => Some x
            | None => Some false
            end |}.

(** ** Vocabulary for the statements *)

(** Where the scan starts: [paths.commands if start_dir is None else
    start_dir]. *)
Definition start_path (paths : SubPaths.t) (start_dir : option string) : string :=
  match start_dir with None => SubPaths.commands paths | Some d => d end.

(** A token the loop consumes: it has a first character, which is not ['-']. *)
Definition consumable (t : string) : bool :=
  match t with
  | EmptyString => false
  | String c _ => negb (Ascii.eqb c "-")
  end.

(** A token at which the loop breaks before consuming it. *)
Definition is_flag (t : string) : bool :=
  match t with
  | EmptyString => false
  | String c _ => Ascii.eqb c "-"
  end.

(** Every token of [pre] is consumed and names a directory inside the one
    reached so far, starting from [d]. *)
Fixpoint descends (fs : FS) (d : string) (pre : list string) : bool :=
  match pre with
  | [] => true
  | t :: pre' =>
      consumable t && fs_isdir fs (PosixPath.join d t)
      && descends fs (PosixPath.join d t) pre'
  end.

(** The directory reached from [d] through [pre]. *)
Definition descend_dir (d : string) (pre : list string) : string :=
  fold_left PosixPath.join pre d.

(** The probes made on the way. *)
Fixpoint descend_probes (d : string) (pre : list string) : list Probe :=
  match pre with
  | [] => []
  | t :: pre' => IsDir (PosixPath.join d t) :: descend_probes (PosixPath.join d t) pre'
  end.

(** The local variables after the loop went through [pre] by [continue],
    [i] being the index of the first token of [pre]. *)
Definition after_descent (st : Locals) (i : nat) (pre : list string) : Locals :=
  match pre with
  | [] => st
  | _ :: _ =>
      mkLocals (descend_dir (running_path st) pre) (i + List.length pre - 1)
        (command st ++ pre) (is_sh st) (Some true)
  end.

(** The token list [main] works on: [sys.argv[1:]] when [argv is None]. *)
Definition effective_argv (env : Env) (argv : option (list string)) : list string :=
  match argv with None => tl (sys_argv env) | Some a => a end.

(** ** What a resolution can be

    [resolution fs start argv r]: [r] is what the scan of [argv] from the
    directory [start] yields on the file system [fs], case by case: the
    tokens [pre] are descended through, and the scan ends on the token after
    them, or on the end of the list. *)
Inductive resolution (fs : FS) (start : string) (argv : list string) :
    result Command.t * list Probe -> Prop :=
| res_direct pre t rest :
    argv = pre ++ t :: rest ->
    descends fs start pre = true ->
    consumable t = true ->
    fs_isdir fs (PosixPath.join (descend_dir start pre) t) = false ->
    fs_access_X_OK fs (PosixPath.join (descend_dir start pre) t) = Some true ->
    resolution fs start argv
      (Ok (Command.mk (pre ++ [t])
             (Some (PosixPath.join (descend_dir start pre) t))
             (Some false) (Some false) (Some rest)),
       descend_probes start pre
         ++ [IsDir (PosixPath.join (descend_dir start pre) t);
             AccessX (PosixPath.join (descend_dir start pre) t)])
| res_sh pre t rest :
    argv = pre ++ t :: rest ->
    descends fs start pre = true ->
    consumable t = true ->
    fs_isdir fs (PosixPath.join (descend_dir start pre) t) = false ->
    fs_access_X_OK fs (PosixPath.join (descend_dir start pre) t) = Some false ->
    fs_access_X_OK fs (PosixPath.join (descend_dir start pre) ("sh-" ++ t)) = Some true ->
    resolution fs start argv
      (Ok (Command.mk (pre ++ [t])
             (Some (PosixPath.join (descend_dir start pre) ("sh-" ++ t)))
             (Some true) (Some false) (Some rest)),
       descend_probes start pre
         ++ [IsDir (PosixPath.join (descend_dir start pre) t);
             AccessX (PosixPath.join (descend_dir start pre) t);
             AccessX (PosixPath.join (descend_dir start pre) ("sh-" ++ t))])
| res_not_found pre t rest :
    argv = pre ++ t :: rest ->
    descends fs start pre = true ->
    consumable t = true ->
    fs_isdir fs (PosixPath.join (descend_dir start pre) t) = false ->
    fs_access_X_OK fs (PosixPath.join (descend_dir start pre) t) = Some false ->
    fs_access_X_OK fs (PosixPath.join (descend_dir start pre) ("sh-" ++ t)) = Some false ->
    resolution fs start argv
      (Ok (Command.mk (pre ++ [t]) None None None None),
       descend_probes start pre
         ++ [IsDir (PosixPath.join (descend_dir start pre) t);
             AccessX (PosixPath.join (descend_dir start pre) t);
             AccessX (PosixPath.join (descend_dir start pre) ("sh-" ++ t))])
| res_access_raises pre t rest :
    argv = pre ++ t :: rest ->
    descends fs start pre = true ->
    consumable t = true ->
    fs_isdir fs (PosixPath.join (descend_dir start pre) t) = false ->
    fs_access_X_OK fs (PosixPath.join (descend_dir start pre) t) = None ->
    resolution fs start argv
      (Raise ValueError,
       descend_probes start pre
         ++ [IsDir (PosixPath.join (descend_dir start pre) t);
             AccessX (PosixPath.join (descend_dir start pre) t)])
| res_sh_access_raises pre t rest :
    argv = pre ++ t :: rest ->
    descends fs start pre = true ->
    consumable t = true ->
    fs_isdir fs (PosixPath.join (descend_dir start pre) t) = false ->
    fs_access_X_OK fs (PosixPath.join (descend_dir start pre) t) = Some false ->
    fs_access_X_OK fs (PosixPath.join (descend_dir start pre) ("sh-" ++ t)) = None ->
    resolution fs start argv
      (Raise ValueError,
       descend_probes start pre
         ++ [IsDir (PosixPath.join (descend_dir start pre) t);
             AccessX (PosixPath.join (descend_dir start pre) t);
             AccessX (PosixPath.join (descend_dir start pre) ("sh-" ++ t))])
| res_exhausted :
    argv <> [] ->
    descends fs start argv = true ->
    resolution fs start argv
      (Ok (Command.mk argv (Some (descend_dir start argv))
             (Some false) (Some true) (Some [])),
       descend_probes start argv)
| res_flag pre f rest :
    argv = pre ++ f :: rest ->
    pre <> [] ->
    descends fs start pre = true ->
    is_flag f = true ->
    resolution fs start argv
      (Ok (Command.mk pre (Some (descend_dir start pre))
             (Some false) (Some true) (Some rest)),
       descend_probes start pre)
| res_unbound_empty :
    argv = [] ->
    resolution fs start argv (Raise UnboundLocalError, [])
| res_unbound_flag f rest :
    argv = f :: rest ->
    is_flag f = true ->
    resolution fs start argv (Raise UnboundLocalError, [])
| res_index_error pre rest :
    argv = pre ++ "" :: rest ->
    descends fs start pre = true ->
    resolution fs start argv (Raise IndexError, descend_probes start pre).

(** ** A sample installation

    The sub is installed under [/opt/sub]; its command tree holds
    - [a/], with [a/b/] and the executables [a/foo] and [a/sh-foo];
    - [deploy/], with the executable [deploy/staging];
    - the executable [sh-foo] (and no [foo]) at the top;
    - a directory [sh-bar/] (and no [bar]) at the top. *)
Definition sample_env : Env :=
  {| calling_script := "/opt/sub/bin/sub";
     abspath := fun p => p;
     sys_argv := ["/opt/sub/bin/sub"];
     os_execvp := fun _ _ => None |}.

Definition sample_paths : SubPaths.t := SubPaths.init sample_env None.

(** A runner that writes nothing and returns. *)
Definition returning_runner : Runner := fun _ => ("", "", Returns (Some 0)).

Definition sample_tree : list (string * Entry) :=
  [ ("/opt/sub/commands", Directory true);
    ("/opt/sub/commands/a", Directory true);
    ("/opt/sub/commands/a/b", Directory true);
    ("/opt/sub/commands/a/foo", File true);
    ("/opt/sub/commands/a/sh-foo", File true);
    ("/opt/sub/commands/deploy", Directory true);
    ("/opt/sub/commands/deploy/staging", File true);
    ("/opt/sub/commands/sh-foo", File true);
    ("/opt/sub/commands/sh-bar", Directory true) ].

Definition sample_fs : FS := fs_of sample_tree.

(** ** [path_prepend] *)

(** [os.environ]: the variables that are set, by name. *)
Definition Environ : Type := string -> option string.

(** ['=' in s] *)
Fixpoint has_equals (s : string) : bool :=
  match s with
  | EmptyString => false
  | String c r => Ascii.eqb c "=" || has_equals r
  end.

(** [environ[key] = value].  The assignment raises [ValueError], and
    assigns nothing, when the name is empty or holds ['='], or when the name
    or the value holds a null character. *)
Definition setitem (environ : Environ) (key value : string) : result Environ :=
  if (String.eqb key "" || has_equals key || has_nul key || has_nul value)%bool
  then Raise ValueError
  else Ok (fun k => if String.eqb k key then Some value else environ k).

(** [os.environ['PATH'] = ":".join((directory, os.environ['PATH']))].
    Reading [PATH] when it is not set raises [KeyError] before anything is
    assigned. *)
Definition path_prepend (directory : string) (environ : Environ) : result Environ :=
  match environ "PATH" with
  | None => Raise KeyError
  | Some p => setitem environ "PATH" (String.concat ":" [directory; p])
  end.

(** ** Two file systems seen through a log of probes *)

(** What the file system answers to a probe; [None]: the probe raises. *)
Definition probe_answer (fs : FS) (pr : Probe) : option bool :=
  match pr with
  | IsDir p => Some (fs_isdir fs p)
  | AccessX p => fs_access_X_OK fs p
  end.

(** The two file systems answer alike to every probe of the log. *)
Definition agree_on (fs1 fs2 : FS) (tr : list Probe) : Prop :=
  Forall (fun pr => probe_answer fs1 pr = probe_answer fs2 pr) tr.

(** A sample environment, and a tree that differs from the sample tree away
    from what [a x] makes the resolver look at. *)
Definition sample_environ : Environ :=
  fun k => if String.eqb k "PATH" then Some "/usr/bin:/bin"
           else if String.eqb k "HOME" then Some "/root" else None.

Definition other_tree : list (string * Entry) :=
  [ ("/opt/sub/commands", Directory true);
    ("/opt/sub/commands/a", Directory true);
    ("/opt/sub/commands/a/y", File true);
    ("/opt/sub/commands/x", File true) ].

Definition other_fs : FS := fs_of other_tree.

(** What the resolver returns on the sample installation for
    [deploy staging --force now], [foo x], [a b] and [a x y]. *)
Definition sample_leaf : Command.t :=
  Command.mk ["deploy"; "staging"] (Some "/opt/sub/commands/deploy/staging")
    (Some false) (Some false) (Some ["--force"; "now"]).

Definition sample_leaf_sh : Command.t :=
  Command.mk ["foo"] (Some "/opt/sub/commands/sh-foo")
    (Some true) (Some false) (Some ["x"]).

Definition sample_container : Command.t :=
  Command.mk ["a"; "b"] (Some "/opt/sub/commands/a/b")
    (Some false) (Some true) (Some []).

Definition sample_not_found : Command.t := Command.create_not_found ["a"; "x"].

(** [os.access] raises on no other path than one with an embedded null
    character, as on a POSIX system. *)
Definition access_raises_on_nul_only (fs : FS) : Prop :=
  forall p, fs_access_X_OK fs p = None -> has_nul p = true.

(** The directory tests of a log, in order, and their number. *)
Definition isdir_probes (tr : list Probe) : list Probe :=
  filter (fun pr => match pr with IsDir _ => true | AccessX _ => false end) tr.

Definition count_isdir (tr : list Probe) : nat := List.length (isdir_probes tr).

(** ['/' in s] *)
Fixpoint has_slash (s : string) : bool :=
  match s with
  | EmptyString => false
  | String c r => Ascii.eqb c "/" || has_slash r
  end.

(** * Properties *)

(** ** One pass through the loop body *)

Section Body.
Variable fs : FS.
Variables (st : Locals) (i : nat) (token : string) (tr : list Probe).

Let possible_path := PosixPath.join (running_path st) token.
Let possible_path_sh := PosixPath.join (running_path st) (mkcmd token true).

Lemma body_empty_token :
  token = "" -> body st i token fs tr = (Raise IndexError, tr).
Proof. intros ->. destruct st. reflexivity. Qed.

Lemma body_flag :
  is_flag token = true ->
  body st i token fs tr
  = (Ok (Break (mkLocals (running_path st) i (command st) (is_sh st) (is_dir st))), tr).
Proof.
  destruct st, token as [|c s]; simpl; [discriminate|].
  intros H. unfold body, bind, getitem0, ret. simpl. now rewrite H.
Qed.

Lemma body_directory :
  consumable token = true ->
  fs_isdir fs possible_path = true ->
  body st i token fs tr
  = (Ok (Continue (mkLocals possible_path i (command st ++ [token]) (is_sh st)
                     (Some true))),
     tr ++ [IsDir possible_path]).
Proof.
  subst possible_path. destruct st, token as [|c s]; simpl; [discriminate|].
  intros H D. apply negb_true_iff in H.
  unfold body, bind, getitem0, ret, isdir. simpl. now rewrite H, D.
Qed.

Lemma body_direct :
  consumable token = true ->
  fs_isdir fs possible_path = false ->
  fs_access_X_OK fs possible_path = Some true ->
  body st i token fs tr
  = (Ok (Break (mkLocals possible_path i (command st ++ [token]) (is_sh st)
                  (Some false))),
     tr ++ [IsDir possible_path; AccessX possible_path]).
Proof.
  subst possible_path. destruct st, token as [|c s]; simpl; [discriminate|].
  intros H D X. apply negb_true_iff in H.
  unfold body, bind, getitem0, ret, isdir, access_X_OK. simpl.
  rewrite H, D, X, <- app_assoc. reflexivity.
Qed.

Lemma body_sh :
  consumable token = true ->
  fs_isdir fs possible_path = false ->
  fs_access_X_OK fs possible_path = Some false ->
  fs_access_X_OK fs possible_path_sh = Some true ->
  body st i token fs tr
  = (Ok (Break (mkLocals possible_path_sh i (command st ++ [token]) true
                  (Some false))),
     tr ++ [IsDir possible_path; AccessX possible_path; AccessX possible_path_sh]).
Proof.
  subst possible_path possible_path_sh.
  destruct st, token as [|c s]; simpl; [discriminate|].
  intros H D X XS. apply negb_true_iff in H.
  unfold body, bind, getitem0, ret, isdir, access_X_OK. simpl.
  rewrite H, D, X. simpl in XS. rewrite XS, <- !app_assoc. reflexivity.
Qed.

Lemma body_not_found :
  consumable token = true ->
  fs_isdir fs possible_path = false ->
  fs_access_X_OK fs possible_path = Some false ->
  fs_access_X_OK fs possible_path_sh = Some false ->
  body st i token fs tr
  = (Ok (Return (Command.create_not_found (command st ++ [token]))),
     tr ++ [IsDir possible_path; AccessX possible_path; AccessX possible_path_sh]).
Proof.
  subst possible_path possible_path_sh.
  destruct st, token as [|c s]; simpl; [discriminate|].
  intros H D X XS. apply negb_true_iff in H.
  unfold body, bind, getitem0, ret, isdir, access_X_OK. simpl.
  rewrite H, D, X. simpl in XS. rewrite XS, <- !app_assoc. reflexivity.
Qed.
Lemma body_access_raises :
  consumable token = true ->
  fs_isdir fs possible_path = false ->
  fs_access_X_OK fs possible_path = None ->
  body st i token fs tr
  = (Raise ValueError, tr ++ [IsDir possible_path; AccessX possible_path]).
Proof.
  subst possible_path. destruct st, token as [|c s]; simpl; [discriminate|].
  intros H D X. apply negb_true_iff in H.
  unfold body, bind, getitem0, ret, isdir, access_X_OK. simpl.
  rewrite H, D, X, <- app_assoc. reflexivity.
Qed.

Lemma body_sh_access_raises :
  consumable token = true ->
  fs_isdir fs possible_path = false ->
  fs_access_X_OK fs possible_path = Some false ->
  fs_access_X_OK fs possible_path_sh = None ->
  body st i token fs tr
  = (Raise ValueError,
     tr ++ [IsDir possible_path; AccessX possible_path; AccessX possible_path_sh]).
Proof.
  subst possible_path possible_path_sh.
  destruct st, token as [|c s]; simpl; [discriminate|].
  intros H D X XS. apply negb_true_iff in H.
  unfold body, bind, getitem0, ret, isdir, access_X_OK. simpl.
  rewrite H, D, X. simpl in XS. rewrite XS, <- !app_assoc. reflexivity.
Qed.
End Body.

(** ** The loop over a run of directories *)

Lemma for_enumerate_descent (fs : FS) (pre rest : list string) :
  forall (st : Locals) (i : nat) (tr : list Probe),
    descends fs (running_path st) pre = true ->
    for_enumerate i (pre ++ rest) st fs tr
    = for_enumerate (i + List.length pre) rest (after_descent st i pre) fs
        (tr ++ descend_probes (running_path st) pre).
Proof.
  induction pre as [|t pre IH]; intros st i tr H.
  - simpl. now rewrite Nat.add_0_r, app_nil_r.
  - simpl in H. apply andb_true_iff in H as [H Hpre].
    apply andb_true_iff in H as [Ht Hd].
    cbn [app for_enumerate]. unfold bind at 1.
    rewrite (body_directory fs st i t tr Ht Hd).
    rewrite IH by exact Hpre.
    cbn [running_path descend_probes List.length].
    rewrite <- app_assoc. cbn [app].
    replace (S i + List.length pre) with (i + S (List.length pre)) by lia.
    f_equal.
    destruct pre as [|u pre]; unfold after_descent;
      cbn [running_path command is_sh List.length descend_dir fold_left].
    + destruct st; cbn. f_equal; lia.
    + rewrite <- app_assoc. cbn [app]. f_equal. lia.
Qed.

(** Every token list splits into the longest run of directories and what
    follows it. *)
Lemma descent_split (fs : FS) (argv : list string) :
  forall d, exists pre rest,
    argv = pre ++ rest
    /\ descends fs d pre = true
    /\ match rest with
       | [] => True
       | t :: _ => (consumable t && fs_isdir fs (PosixPath.join (descend_dir d pre) t)) = false
       end.
Proof.
  induction argv as [|t argv IH]; intros d.
  - exists [], []. simpl. auto.
  - destruct (consumable t && fs_isdir fs (PosixPath.join d t)) eqn:E.
    + destruct (IH (PosixPath.join d t)) as (pre & rest & -> & Hd & Hr).
      exists (t :: pre), rest. simpl. rewrite E, Hd. auto.
    + exists [], (t :: argv). simpl. auto.
Qed.

(** ** [find_command_path], case by case *)

Lemma skipn_past {A} (pre : list A) (t : A) (rest : list A) :
  skipn (List.length pre + 1) (pre ++ t :: rest) = rest.
Proof. induction pre as [|a pre IH]; simpl; auto. Qed.

Lemma skipn_whole {A} (a : A) (l : list A) :
  skipn (0 + List.length (a :: l) - 1 + 1) (a :: l) = [].
Proof.
  replace (0 + List.length (a :: l) - 1 + 1) with (List.length (a :: l))
    by (simpl; lia).
  apply skipn_all.
Qed.

Section Scan.
Variable fs : FS.
Variable start : string.

Let st0 : Locals := mkLocals start 0 [] false None.

Lemma after_descent_running_path pre :
  running_path (after_descent st0 0 pre) = descend_dir start pre.
Proof. destruct pre; reflexivity. Qed.

Lemma after_descent_command pre : command (after_descent st0 0 pre) = pre.
Proof. destruct pre; reflexivity. Qed.

Lemma after_descent_is_sh pre : is_sh (after_descent st0 0 pre) = false.
Proof. destruct pre; reflexivity. Qed.

(** The whole function in terms of the loop. *)
Lemma find_command_path_unfold argv paths sd :
  start_path paths sd = start ->
  run fs (find_command_path argv paths sd)
  = match for_enumerate 0 argv st0 fs [] with
    | (Ok (Return r), tr) => (Ok r, tr)
    | (Ok (Break st), tr) | (Ok (Continue st), tr) => after_loop argv st fs tr
    | (Raise e, tr) => (Raise e, tr)
    end.
Proof.
  intros <-. unfold run, find_command_path, bind, start_path, st0.
  destruct (for_enumerate _ _ _ _ _) as [[[ | | ]|] tr]; reflexivity.
Qed.

(** The loop, once it went through the directories [pre]. *)
Lemma scan_descent pre rest :
  descends fs start pre = true ->
  for_enumerate 0 (pre ++ rest) st0 fs []
  = for_enumerate (List.length pre) rest (after_descent st0 0 pre) fs
      (descend_probes start pre).
Proof.
  intros H. now rewrite for_enumerate_descent by exact H.
Qed.

Section Cases.
Variables (paths : SubPaths.t) (sd : option string).
Hypothesis Hstart : start_path paths sd = start.
Variables (pre : list string) (t : string) (rest : list string).
Hypothesis Hpre : descends fs start pre = true.

Let d := descend_dir start pre.

(** After the directories [pre], [t] is an executable that is not a
    directory. *)
Lemma resolve_direct :
  consumable t = true ->
  fs_isdir fs (PosixPath.join d t) = false ->
  fs_access_X_OK fs (PosixPath.join d t) = Some true ->
  run fs (find_command_path (pre ++ t :: rest) paths sd)
  = (Ok (Command.mk (pre ++ [t]) (Some (PosixPath.join d t))
           (Some false) (Some false) (Some rest)),
     descend_probes start pre
       ++ [IsDir (PosixPath.join d t); AccessX (PosixPath.join d t)]).
Proof.
  intros Hc D X. subst d.
  rewrite (find_command_path_unfold _ _ _ Hstart), (scan_descent _ _ Hpre).
  cbn [for_enumerate]. unfold bind at 1.
  pose proof (after_descent_running_path pre) as Erp.
  rewrite body_direct by (rewrite ?Erp; assumption).
  unfold ret, after_loop, Command.init.
  cbn [is_dir shift command running_path is_sh].
  now rewrite Erp, after_descent_command, after_descent_is_sh, skipn_past.
Qed.

(** After the directories [pre], [t] is neither a directory nor an
    executable, and [sh-t] is an executable. *)
Lemma resolve_sh :
  consumable t = true ->
  fs_isdir fs (PosixPath.join d t) = false ->
  fs_access_X_OK fs (PosixPath.join d t) = Some false ->
  fs_access_X_OK fs (PosixPath.join d ("sh-" ++ t)) = Some true ->
  run fs (find_command_path (pre ++ t :: rest) paths sd)
  = (Ok (Command.mk (pre ++ [t]) (Some (PosixPath.join d ("sh-" ++ t)))
           (Some true) (Some false) (Some rest)),
     descend_probes start pre
       ++ [IsDir (PosixPath.join d t); AccessX (PosixPath.join d t);
           AccessX (PosixPath.join d ("sh-" ++ t))]).
Proof.
  intros Hc D X XS. subst d.
  rewrite (find_command_path_unfold _ _ _ Hstart), (scan_descent _ _ Hpre).
  cbn [for_enumerate]. unfold bind at 1.
  pose proof (after_descent_running_path pre) as Erp.
  rewrite body_sh by (unfold mkcmd; rewrite ?Erp; assumption).
  unfold ret, after_loop, Command.init, mkcmd.
  cbn [is_dir shift command running_path is_sh].
  now rewrite Erp, after_descent_command, skipn_past.
Qed.

(** After the directories [pre], none of the three probes of [t]
    succeeds. *)
Lemma resolve_not_found :
  consumable t = true ->
  fs_isdir fs (PosixPath.join d t) = false ->
  fs_access_X_OK fs (PosixPath.join d t) = Some false ->
  fs_access_X_OK fs (PosixPath.join d ("sh-" ++ t)) = Some false ->
  run fs (find_command_path (pre ++ t :: rest) paths sd)
  = (Ok (Command.create_not_found (pre ++ [t])),
     descend_probes start pre
       ++ [IsDir (PosixPath.join d t); AccessX (PosixPath.join d t);
           AccessX (PosixPath.join d ("sh-" ++ t))]).
Proof.
  intros Hc D X XS. subst d.
  rewrite (find_command_path_unfold _ _ _ Hstart), (scan_descent _ _ Hpre).
  cbn [for_enumerate]. unfold bind at 1.
  pose proof (after_descent_running_path pre) as Erp.
  rewrite body_not_found by (unfold mkcmd; rewrite ?Erp; assumption).
  unfold ret, mkcmd. now rewrite Erp, after_descent_command.
Qed.

(** After the directories [pre], [os.access] raises on [t]. *)
Lemma resolve_access_raises :
  consumable t = true ->
  fs_isdir fs (PosixPath.join d t) = false ->
  fs_access_X_OK fs (PosixPath.join d t) = None ->
  run fs (find_command_path (pre ++ t :: rest) paths sd)
  = (Raise ValueError,
     descend_probes start pre
       ++ [IsDir (PosixPath.join d t); AccessX (PosixPath.join d t)]).
Proof.
  intros Hc D X. subst d.
  rewrite (find_command_path_unfold _ _ _ Hstart), (scan_descent _ _ Hpre).
  cbn [for_enumerate]. unfold bind at 1.
  pose proof (after_descent_running_path pre) as Erp.
  rewrite body_access_raises by (rewrite ?Erp; assumption).
  now rewrite Erp.
Qed.

(** After the directories [pre], [t] is neither a directory nor an
    executable, and [os.access] raises on [sh-t]. *)
Lemma resolve_sh_access_raises :
  consumable t = true ->
  fs_isdir fs (PosixPath.join d t) = false ->
  fs_access_X_OK fs (PosixPath.join d t) = Some false ->
  fs_access_X_OK fs (PosixPath.join d ("sh-" ++ t)) = None ->
  run fs (find_command_path (pre ++ t :: rest) paths sd)
  = (Raise ValueError,
     descend_probes start pre
       ++ [IsDir (PosixPath.join d t); AccessX (PosixPath.join d t);
           AccessX (PosixPath.join d ("sh-" ++ t))]).
Proof.
  intros Hc D X XS. subst d.
  rewrite (find_command_path_unfold _ _ _ Hstart), (scan_descent _ _ Hpre).
  cbn [for_enumerate]. unfold bind at 1.
  pose proof (after_descent_running_path pre) as Erp.
  rewrite body_sh_access_raises by (unfold mkcmd; rewrite ?Erp; assumption).
  unfold mkcmd. now rewrite Erp.
Qed.

(** The tokens are the directories [pre], at least one, and nothing
    else. *)
Lemma resolve_exhausted :
  pre <> [] ->
  run fs (find_command_path pre paths sd)
  = (Ok (Command.mk pre (Some d) (Some false) (Some true) (Some [])),
     descend_probes start pre).
Proof.
  intros Hne. subst d.
  rewrite (find_command_path_unfold _ _ _ Hstart).
  rewrite <- (app_nil_r pre) at 1. rewrite (scan_descent _ _ Hpre).
  destruct pre as [|a l]; [contradiction|].
  cbn [for_enumerate ret].
  unfold after_loop, after_descent, ret, Command.init.
  cbn [is_dir shift command running_path is_sh st0].
  now rewrite skipn_whole.
Qed.

(** After the directories [pre], at least one, [t] is a flag. *)
Lemma resolve_flag :
  pre <> [] ->
  is_flag t = true ->
  run fs (find_command_path (pre ++ t :: rest) paths sd)
  = (Ok (Command.mk pre (Some d) (Some false) (Some true) (Some rest)),
     descend_probes start pre).
Proof.
  intros Hne Hf. subst d.
  rewrite (find_command_path_unfold _ _ _ Hstart), (scan_descent _ _ Hpre).
  cbn [for_enumerate]. unfold bind at 1.
  rewrite body_flag by exact Hf. unfold ret, after_loop, Command.init.
  cbn [is_dir shift command running_path is_sh].
  rewrite after_descent_running_path, after_descent_command,
    after_descent_is_sh.
  destruct pre as [|a l]; [contradiction|].
  cbn [after_descent is_dir st0]. now rewrite skipn_past.
Qed.

(** After the directories [pre] comes an empty token. *)
Lemma resolve_index_error :
  run fs (find_command_path (pre ++ "" :: rest) paths sd)
  = (Raise IndexError, descend_probes start pre).
Proof.
  rewrite (find_command_path_unfold _ _ _ Hstart), (scan_descent _ _ Hpre).
  cbn [for_enumerate]. unfold bind at 1.
  now rewrite body_empty_token.
Qed.
End Cases.

(** No token at all: [is_dir] was never assigned. *)
Lemma resolve_unbound_empty paths sd :
  run fs (find_command_path [] paths sd) = (Raise UnboundLocalError, []).
Proof. reflexivity. Qed.

(** The first token is a flag: [is_dir] was never assigned. *)
Lemma resolve_unbound_flag paths sd t rest :
  start_path paths sd = start ->
  is_flag t = true ->
  run fs (find_command_path (t :: rest) paths sd) = (Raise UnboundLocalError, []).
Proof.
  intros Hs Hf. rewrite (find_command_path_unfold _ _ _ Hs).
  cbn [for_enumerate]. unfold bind at 1.
  now rewrite body_flag by exact Hf.
Qed.

(** Every call falls under one of the cases. *)
Theorem find_command_path_resolution argv paths sd :
  start_path paths sd = start ->
  resolution fs start argv (run fs (find_command_path argv paths sd)).
Proof.
  intros Hs.
  destruct (descent_split fs argv start) as (pre & rest & E & Hd & Hr).
  destruct rest as [|t rest].
  - rewrite app_nil_r in E. subst pre. destruct argv as [|a argv].
    + rewrite resolve_unbound_empty. now apply res_unbound_empty.
    + rewrite (resolve_exhausted _ _ Hs _ Hd) by discriminate.
      apply res_exhausted; [discriminate | exact Hd].
  - destruct t as [|c s] eqn:Et.
    + rewrite E, (resolve_index_error _ _ Hs _ _ Hd). rewrite <- E.
      now apply res_index_error with (rest := rest).
    + rewrite <- Et in *.
      assert (Hflag : consumable t = false -> is_flag t = true).
      { rewrite Et. simpl. intros H. now apply negb_false_iff in H. }
      clear Et c s.
      destruct (consumable t) eqn:Ec.
      * rewrite andb_true_l in Hr.
        destruct (fs_access_X_OK fs (PosixPath.join (descend_dir start pre) t))
          as [[|]|] eqn:X;
          [| destruct (fs_access_X_OK fs
                         (PosixPath.join (descend_dir start pre) ("sh-" ++ t)))
               as [[|]|] eqn:XS |].
        -- rewrite E at 2. rewrite (resolve_direct _ _ Hs _ _ _ Hd Ec Hr X).
           now apply res_direct.
        -- rewrite E at 2. rewrite (resolve_sh _ _ Hs _ _ _ Hd Ec Hr X XS).
           now apply res_sh.
        -- rewrite E at 2. rewrite (resolve_not_found _ _ Hs _ _ _ Hd Ec Hr X XS).
           now apply res_not_found with (rest := rest).
        -- rewrite E at 2. rewrite (resolve_sh_access_raises _ _ Hs _ _ _ Hd Ec Hr X XS).
           now apply res_sh_access_raises with (rest := rest).
        -- rewrite E at 2. rewrite (resolve_access_raises _ _ Hs _ _ _ Hd Ec Hr X).
           now apply res_access_raises with (rest := rest).
      * pose proof (Hflag eq_refl) as Hf.
        destruct pre as [|a pre].
        -- simpl in E. rewrite E at 2. rewrite (resolve_unbound_flag _ _ _ _ Hs Hf).
           now apply res_unbound_flag with (f := t) (rest := rest).
        -- rewrite E at 2.
           rewrite (resolve_flag _ _ Hs _ _ _ Hd) by (auto; discriminate).
           apply res_flag with (f := t); auto. discriminate.
Qed.
End Scan.

(** ** What a returned [Command] looks like *)

(** The cases of a call that returned [cmd]. *)
Ltac returned_cases H :=
  let R := fresh "R" in
  match type of H with
  | run ?fs (find_command_path ?argv ?paths ?sd) = _ =>
      pose proof (find_command_path_resolution fs _ argv paths sd eq_refl) as R
  end;
  rewrite H in R; inversion R; subst; clear R.

Lemma descends_head_consumable fs d a pre :
  descends fs d (a :: pre) = true -> consumable a = true.
Proof.
  simpl. intros H. apply andb_true_iff in H as [H _].
  now apply andb_true_iff in H as [H _].
Qed.

(** A call that returns consumed its first token: the token list is not
    empty, and its first token is neither empty nor a flag. *)
Lemma returned_first_consumable fs argv paths sd cmd tr :
  run fs (find_command_path argv paths sd) = (Ok cmd, tr) ->
  exists a rest, argv = a :: rest /\ consumable a = true.
Proof.
  intros H. returned_cases H;
    try (destruct pre as [|a pre];
         [ try contradiction; simpl; eauto
         | simpl; eauto using descends_head_consumable ]).
  destruct argv as [|a argv]; [contradiction|].
  eauto using descends_head_consumable.
Qed.

(** X5.  How a leaf was found.  Its path answers [os.access(_, X_OK)]; the
    directory test was made on the token as it is spelled, so that a direct
    match is not a directory, while nothing is known of the [sh-] path but
    the access test. *)
Lemma leaf_found_how fs argv paths sd cmd tr :
  run fs (find_command_path argv paths sd) = (Ok cmd, tr) ->
  is_leaf cmd = true ->
  exists pre t p,
    Command.tokens cmd = pre ++ [t]
    /\ descends fs (start_path paths sd) pre = true
    /\ Command.path cmd = Some p
    /\ fs_access_X_OK fs p = Some true
    /\ fs_isdir fs (PosixPath.join (descend_dir (start_path paths sd) pre) t) = false
    /\ ((Command.is_sh cmd = Some false
         /\ p = PosixPath.join (descend_dir (start_path paths sd) pre) t)
        \/ (Command.is_sh cmd = Some true
            /\ p = PosixPath.join (descend_dir (start_path paths sd) pre) ("sh-" ++ t)
            /\ fs_access_X_OK fs
                 (PosixPath.join (descend_dir (start_path paths sd) pre) t) = Some false)).
Proof.
  intros H L. returned_cases H; try discriminate L.
  - exists pre, t. eexists. cbn. repeat split; eauto.
  - exists pre, t. eexists. cbn. repeat split; eauto.
Qed.

(** ** The claims *)

(** C1.  The claim, that the path of a [Leaf] refers to an executable file
    and not to a directory, fails on the [sh-] branch: the code tests
    [sh-<token>] with [os.access(_, X_OK)] alone, which a searchable
    directory passes.  In the sample tree, [bar] resolves to the directory
    [sh-bar/] as a leaf, with [is_sh] set. *)
Theorem sh_fallback_leaf_is_a_directory :
  exists cmd,
    run sample_fs (find_command_path ["bar"] sample_paths None)
    = (Ok cmd, [IsDir "/opt/sub/commands/bar"; AccessX "/opt/sub/commands/bar";
                AccessX "/opt/sub/commands/sh-bar"])
    /\ is_leaf cmd = true
    /\ Command.path cmd = Some "/opt/sub/commands/sh-bar"
    /\ Command.found_with_sh cmd = Some true
    /\ fs_isdir sample_fs "/opt/sub/commands/sh-bar" = true
    /\ lookup "/opt/sub/commands/sh-bar" sample_tree = Some (Directory true).
Proof. eexists. repeat split. Qed.

(** C2.  The claim, that a call on a non-empty token list always returns a
    value, fails when the first token is a flag: the loop breaks before
    [is_dir] was ever assigned, and the [return] statement after the loop
    raises [UnboundLocalError].  [main] lets such a token list through (it
    only filters [-h] and [--help]) and ends on that exception. *)
Theorem flag_first_token_raises :
  forall fs env root_path command_runner paths sd rest,
    run fs (find_command_path ("--version" :: rest) paths sd)
    = (Raise UnboundLocalError, [])
    /\ main env fs (Some ("--version" :: rest)) root_path command_runner
       = (mkOutput "" "" [], Raises UnboundLocalError).
Proof.
  intros. split.
  - now apply resolve_unbound_flag with (start := start_path paths sd).
  - unfold main. cbn [effective_argv List.length Nat.ltb Nat.leb existsb orb].
    replace (String.eqb "--version" "-h") with false by reflexivity.
    replace (String.eqb "--version" "--help") with false by reflexivity.
    cbn [orb].
    now rewrite (resolve_unbound_flag fs _ (SubPaths.init env root_path) None
                   "--version" rest eq_refl eq_refl).
Qed.

(** An empty token raises as well, wherever it stands after directories. *)
Lemma empty_token_raises :
  forall fs paths sd rest,
    run fs (find_command_path ("" :: rest) paths sd) = (Raise IndexError, []).
Proof.
  intros.
  exact (resolve_index_error fs _ paths sd eq_refl [] rest eq_refl).
Qed.

Lemma descend_probes_length d pre :
  List.length (descend_probes d pre) = List.length pre.
Proof.
  revert d. induction pre as [|t pre IH]; intros d; simpl; [reflexivity|].
  now rewrite IH.
Qed.

Lemma isdir_probes_descend d pre :
  isdir_probes (descend_probes d pre) = descend_probes d pre.
Proof.
  revert d. induction pre as [|t pre IH]; intros d; [reflexivity|].
  unfold isdir_probes in *. simpl. now rewrite IH.
Qed.

Lemma descend_probes_snoc pre :
  forall d t,
    descend_probes d (pre ++ [t])
    = descend_probes d pre ++ [IsDir (PosixPath.join (descend_dir d pre) t)].
Proof.
  induction pre as [|u pre IH]; intros d t; [reflexivity|].
  simpl. now rewrite IH.
Qed.

(** The directory tests of a log that goes through [pre] and ends on the
    probes of [t] are those of the tokens [pre] and [t]. *)
Lemma isdir_probes_last d pre t more :
  isdir_probes more = [] ->
  isdir_probes (descend_probes d pre
                  ++ IsDir (PosixPath.join (descend_dir d pre) t) :: more)
  = descend_probes d (pre ++ [t]).
Proof.
  intros M. unfold isdir_probes in *.
  rewrite filter_app. fold (isdir_probes (descend_probes d pre)).
  rewrite isdir_probes_descend, descend_probes_snoc. simpl. now rewrite M.
Qed.

(** C3.  The consumed tokens of a returned command are a prefix of the
    token list, and none of them went unexamined: the directory tests of
    the log are those of the consumed tokens, one for each in turn, each
    made in the directory the tokens before it lead to.  For a leaf the
    consumed tokens followed by the arguments are the token list. *)
Theorem consumed_tokens_prefix :
  forall fs argv paths sd cmd tr,
    run fs (find_command_path argv paths sd) = (Ok cmd, tr) ->
    (exists rest, argv = Command.tokens cmd ++ rest)
    /\ isdir_probes tr = descend_probes (start_path paths sd) (Command.tokens cmd)
    /\ count_isdir tr = List.length (Command.tokens cmd)
    /\ (is_leaf cmd = true ->
        exists args, Command.arguments cmd = Some args
                     /\ Command.tokens cmd ++ args = argv).
Proof.
  intros fs argv paths sd cmd tr H.
  assert (P : isdir_probes tr
              = descend_probes (start_path paths sd) (Command.tokens cmd)).
  { returned_cases H; cbn [Command.tokens];
      auto using isdir_probes_last, isdir_probes_descend. }
  assert (C : count_isdir tr = List.length (Command.tokens cmd)).
  { unfold count_isdir. now rewrite P, descend_probes_length. }
  returned_cases H; cbn [Command.tokens Command.arguments] in *;
    (split; [|split; [exact P|split; [exact C|]]]);
    try (intros L; discriminate L).
  - exists rest. now rewrite <- app_assoc.
  - intros _. exists rest. now rewrite <- app_assoc.
  - exists rest. now rewrite <- app_assoc.
  - intros _. exists rest. now rewrite <- app_assoc.
  - exists rest. now rewrite <- app_assoc.
  - exists []. now rewrite app_nil_r.
  - exists (f :: rest). reflexivity.
Qed.

Lemma consumed_tokens_prefix_witness :
  (exists rest, ["deploy"; "staging"; "--force"; "now"] = ["deploy"; "staging"] ++ rest)
  /\ isdir_probes [IsDir "/opt/sub/commands/deploy";
                   IsDir "/opt/sub/commands/deploy/staging";
                   AccessX "/opt/sub/commands/deploy/staging"]
     = descend_probes (start_path sample_paths None) ["deploy"; "staging"]
  /\ count_isdir [IsDir "/opt/sub/commands/deploy";
                  IsDir "/opt/sub/commands/deploy/staging";
                  AccessX "/opt/sub/commands/deploy/staging"]
     = List.length ["deploy"; "staging"]
  /\ (exists args, Some ["--force"; "now"] = Some args
                   /\ ["deploy"; "staging"] ++ args
                      = ["deploy"; "staging"; "--force"; "now"]).
Proof.
  destruct (consumed_tokens_prefix sample_fs
              ["deploy"; "staging"; "--force"; "now"] sample_paths None
              (Command.mk ["deploy"; "staging"]
                 (Some "/opt/sub/commands/deploy/staging")
                 (Some false) (Some false) (Some ["--force"; "now"]))
              [IsDir "/opt/sub/commands/deploy";
               IsDir "/opt/sub/commands/deploy/staging";
               AccessX "/opt/sub/commands/deploy/staging"]
              eq_refl) as (P & I & C & L).
  split; [exact P | split; [exact I | split; [exact C | exact (L eq_refl)]]].
Defined.

(** C4.  With [deploy/] a directory under the root, the tokens
    [deploy --help] resolve to the container [<root>/deploy] with
    [deploy] alone consumed: the scan stops at [--help], which is neither
    consumed nor probed. *)
Theorem flag_truncation_deploy_help :
  forall fs paths sd,
    fs_isdir fs (PosixPath.join (start_path paths sd) "deploy") = true ->
    exists cmd,
      run fs (find_command_path ["deploy"; "--help"] paths sd)
      = (Ok cmd, [IsDir (PosixPath.join (start_path paths sd) "deploy")])
      /\ is_container_result cmd = true
      /\ Command.path cmd = Some (PosixPath.join (start_path paths sd) "deploy")
      /\ Command.tokens cmd = ["deploy"].
Proof.
  intros fs paths sd D. eexists. split.
  - apply (resolve_flag fs _ paths sd eq_refl ["deploy"] "--help" []);
      [simpl; now rewrite D | discriminate | reflexivity].
  - repeat split.
Qed.

Lemma flag_truncation_deploy_help_witness :
  exists cmd,
    run sample_fs (find_command_path ["deploy"; "--help"] sample_paths None)
    = (Ok cmd, [IsDir (PosixPath.join (start_path sample_paths None) "deploy")])
    /\ is_container_result cmd = true
    /\ Command.path cmd
       = Some (PosixPath.join (start_path sample_paths None) "deploy")
    /\ Command.tokens cmd = ["deploy"].
Proof.
  apply (flag_truncation_deploy_help sample_fs sample_paths None). reflexivity.
Defined.

(** C5.  In a container reached through the directories [pre], where the
    token [t] names an executable file and [sh-t] an executable too, [t]
    resolves to the leaf [.../t] with [is_sh] false.  The probes made on
    [t] are the directory test and then the access test of [.../t], in this
    order; [sh-t] is not looked at. *)
Theorem direct_match_preferred_over_sh :
  forall fs paths sd pre t rest,
    descends fs (start_path paths sd) pre = true ->
    consumable t = true ->
    fs_isdir fs (PosixPath.join (descend_dir (start_path paths sd) pre) t) = false ->
    fs_access_X_OK fs (PosixPath.join (descend_dir (start_path paths sd) pre) t) = Some true ->
    fs_access_X_OK fs
      (PosixPath.join (descend_dir (start_path paths sd) pre) ("sh-" ++ t)) = Some true ->
    exists cmd,
      run fs (find_command_path (pre ++ t :: rest) paths sd)
      = (Ok cmd,
         descend_probes (start_path paths sd) pre
           ++ [IsDir (PosixPath.join (descend_dir (start_path paths sd) pre) t);
               AccessX (PosixPath.join (descend_dir (start_path paths sd) pre) t)])
      /\ is_leaf cmd = true
      /\ Command.is_sh cmd = Some false
      /\ Command.path cmd
         = Some (PosixPath.join (descend_dir (start_path paths sd) pre) t).
Proof.
  intros fs paths sd pre t rest Hpre Hc D X _. eexists. split.
  - now apply resolve_direct.
  - repeat split.
Qed.

Lemma direct_match_preferred_over_sh_witness :
  exists cmd,
    run sample_fs (find_command_path (["a"] ++ "foo" :: ["-v"]) sample_paths None)
    = (Ok cmd, [IsDir "/opt/sub/commands/a"; IsDir "/opt/sub/commands/a/foo";
                AccessX "/opt/sub/commands/a/foo"])
    /\ is_leaf cmd = true
    /\ Command.is_sh cmd = Some false
    /\ Command.path cmd = Some "/opt/sub/commands/a/foo".
Proof.
  apply (direct_match_preferred_over_sh sample_fs sample_paths None
           ["a"] "foo" ["-v"]); reflexivity.
Defined.

(** C6.  In a container reached through the directories [pre], where the
    token [t] names neither a directory nor an executable and [sh-t] is
    executable, [t] resolves to the leaf [.../sh-t] with [is_sh] true. *)
Theorem sh_fallback_when_no_direct_match :
  forall fs paths sd pre t rest,
    descends fs (start_path paths sd) pre = true ->
    consumable t = true ->
    fs_isdir fs (PosixPath.join (descend_dir (start_path paths sd) pre) t) = false ->
    fs_access_X_OK fs (PosixPath.join (descend_dir (start_path paths sd) pre) t) = Some false ->
    fs_access_X_OK fs
      (PosixPath.join (descend_dir (start_path paths sd) pre) ("sh-" ++ t)) = Some true ->
    exists cmd,
      run fs (find_command_path (pre ++ t :: rest) paths sd)
      = (Ok cmd,
         descend_probes (start_path paths sd) pre
           ++ [IsDir (PosixPath.join (descend_dir (start_path paths sd) pre) t);
               AccessX (PosixPath.join (descend_dir (start_path paths sd) pre) t);
               AccessX (PosixPath.join (descend_dir (start_path paths sd) pre)
                          ("sh-" ++ t))])
      /\ is_leaf cmd = true
      /\ Command.is_sh cmd = Some true
      /\ Command.path cmd
         = Some (PosixPath.join (descend_dir (start_path paths sd) pre) ("sh-" ++ t)).
Proof.
  intros fs paths sd pre t rest Hpre Hc D X XS. eexists. split.
  - now apply resolve_sh.
  - repeat split.
Qed.

Lemma sh_fallback_when_no_direct_match_witness :
  exists cmd,
    run sample_fs (find_command_path ([] ++ "foo" :: ["x"]) sample_paths None)
    = (Ok cmd, [IsDir "/opt/sub/commands/foo"; AccessX "/opt/sub/commands/foo";
                AccessX "/opt/sub/commands/sh-foo"])
    /\ is_leaf cmd = true
    /\ Command.is_sh cmd = Some true
    /\ Command.path cmd = Some "/opt/sub/commands/sh-foo".
Proof.
  apply (sh_fallback_when_no_direct_match sample_fs sample_paths None
           [] "foo" ["x"]); reflexivity.
Defined.

(** C7.  With [a/] a directory under the root in which [x] is neither a
    directory nor an executable and [sh-x] is no executable, the tokens
    [a x y] resolve to not-found with [a x] consumed, no path and no
    arguments.  The probes are those of [a] and [x]: none is made for
    [y]. *)
Theorem early_failure_a_x_y :
  forall fs paths sd,
    fs_isdir fs (PosixPath.join (start_path paths sd) "a") = true ->
    fs_isdir fs (PosixPath.join (PosixPath.join (start_path paths sd) "a") "x") = false ->
    fs_access_X_OK fs
      (PosixPath.join (PosixPath.join (start_path paths sd) "a") "x") = Some false ->
    fs_access_X_OK fs
      (PosixPath.join (PosixPath.join (start_path paths sd) "a") "sh-x") = Some false ->
    exists cmd,
      run fs (find_command_path ["a"; "x"; "y"] paths sd)
      = (Ok cmd,
         [IsDir (PosixPath.join (start_path paths sd) "a");
          IsDir (PosixPath.join (PosixPath.join (start_path paths sd) "a") "x");
          AccessX (PosixPath.join (PosixPath.join (start_path paths sd) "a") "x");
          AccessX (PosixPath.join (PosixPath.join (start_path paths sd) "a") "sh-x")])
      /\ is_not_found cmd = true
      /\ Command.tokens cmd = ["a"; "x"]
      /\ Command.path cmd = None
      /\ Command.arguments cmd = None.
Proof.
  intros fs paths sd Da D X XS. eexists. split.
  - apply (resolve_not_found fs _ paths sd eq_refl ["a"] "x" ["y"]);
      [simpl; now rewrite Da | reflexivity | assumption..].
  - repeat split.
Qed.

Lemma early_failure_a_x_y_witness :
  exists cmd,
    run sample_fs (find_command_path ["a"; "x"; "y"] sample_paths None)
    = (Ok cmd,
       [IsDir "/opt/sub/commands/a"; IsDir "/opt/sub/commands/a/x";
        AccessX "/opt/sub/commands/a/x"; AccessX "/opt/sub/commands/a/sh-x"])
    /\ is_not_found cmd = true
    /\ Command.tokens cmd = ["a"; "x"]
    /\ Command.path cmd = None
    /\ Command.arguments cmd = None.
Proof.
  apply (early_failure_a_x_y sample_fs sample_paths None); reflexivity.
Defined.

(** C8.  With [a/] and [a/b/] directories under the root, the tokens [a b]
    are both consumed by descending, and resolve to the container
    [.../a/b].  Whether anything in [a/] is executable plays no part: the
    directory test comes first and is the only probe made. *)
Theorem full_descent_a_b :
  forall fs paths sd,
    fs_isdir fs (PosixPath.join (start_path paths sd) "a") = true ->
    fs_isdir fs (PosixPath.join (PosixPath.join (start_path paths sd) "a") "b") = true ->
    exists cmd,
      run fs (find_command_path ["a"; "b"] paths sd)
      = (Ok cmd,
         [IsDir (PosixPath.join (start_path paths sd) "a");
          IsDir (PosixPath.join (PosixPath.join (start_path paths sd) "a") "b")])
      /\ is_container_result cmd = true
      /\ Command.path cmd
         = Some (PosixPath.join (PosixPath.join (start_path paths sd) "a") "b")
      /\ Command.tokens cmd = ["a"; "b"]
      /\ Command.arguments cmd = Some [].
Proof.
  intros fs paths sd Da Db. eexists. split.
  - apply (resolve_exhausted fs _ paths sd eq_refl ["a"; "b"]);
      [simpl; now rewrite Da, Db | discriminate].
  - repeat split.
Qed.

Lemma full_descent_a_b_witness :
  exists cmd,
    run sample_fs (find_command_path ["a"; "b"] sample_paths None)
    = (Ok cmd, [IsDir "/opt/sub/commands/a"; IsDir "/opt/sub/commands/a/b"])
    /\ is_container_result cmd = true
    /\ Command.path cmd = Some "/opt/sub/commands/a/b"
    /\ Command.tokens cmd = ["a"; "b"]
    /\ Command.arguments cmd = Some [].
Proof.
  apply (full_descent_a_b sample_fs sample_paths None); reflexivity.
Defined.

(** ** [main] on a command that cannot be run *)

Lemma string_append_assoc (a b c : string) : ((a ++ b) ++ c = a ++ (b ++ c))%string.
Proof. induction a as [|x a IH]; simpl; [reflexivity | now rewrite IH]. Qed.

(** A consumable token is none of the help flags. *)
Lemma consumable_not_help a :
  consumable a = true -> existsb (String.eqb a) ["-h"; "--help"] = false.
Proof.
  destruct a as [|c s]; [reflexivity|]. simpl. intros H.
  apply negb_true_iff in H. now rewrite H.
Qed.

(** [main] goes on to the resolution whenever the resolution returns. *)
Lemma main_resolves env fs argv root_path command_runner cmd tr :
  run fs (find_command_path (effective_argv env argv)
            (SubPaths.init env root_path) None) = (Ok cmd, tr) ->
  main env fs argv root_path command_runner
  = if negb (Command.found cmd) then
      die (SubPaths.name (SubPaths.init env root_path) ++ ": no such command `"
             ++ Command.command cmd ++ "'") (mkOutput "" "" [])
    else if truthy (Command.is_container cmd) then
      die (SubPaths.name (SubPaths.init env root_path) ++ ": can't run a container `"
             ++ Command.command cmd ++ "'") (mkOutput "" "" [])
    else
      match Command.run_with cmd with
      | Ok args =>
          let '(out, err, t) := api_runner env command_runner args in
          (mkOutput out err [args], after_runner t)
      | Raise e => (mkOutput "" "" [], Raises e)
      end.
Proof.
  intros H.
  destruct (returned_first_consumable _ _ _ _ _ _ H) as (a & rest & E & Hc).
  unfold main. fold (effective_argv env argv). rewrite H, E.
  cbn [List.length Nat.ltb Nat.leb orb].
  now rewrite (consumable_not_help _ Hc).
Qed.

(** C9, as the code has it.  When the resolution yields not-found, [main]
    writes [<name>: no such command `<consumed tokens joined by a space>']
    and a newline to standard error and exits with code 1; when it yields
    a container, [main] writes
    [<name>: can't run a container `<consumed tokens joined by a space>']
    and a newline to standard error and exits with code 1.  The quotation
    opens with a backquote and closes with a straight single quote;
    nothing goes to standard output and no command is run. *)
Theorem main_reports_unrunnable_command :
  forall env fs argv root_path command_runner cmd tr,
    run fs (find_command_path (effective_argv env argv)
              (SubPaths.init env root_path) None) = (Ok cmd, tr) ->
    (is_not_found cmd = true ->
     main env fs argv root_path command_runner
     = (mkOutput ""
          (SubPaths.name (SubPaths.init env root_path) ++ ": no such command `"
             ++ String.concat " " (Command.tokens cmd) ++ "'" ++ newline)
          [],
        SystemExit 1))
    /\ (is_container_result cmd = true ->
        main env fs argv root_path command_runner
        = (mkOutput ""
             (SubPaths.name (SubPaths.init env root_path)
                ++ ": can't run a container `"
                ++ String.concat " " (Command.tokens cmd) ++ "'" ++ newline)
             [],
           SystemExit 1)).
Proof.
  intros env fs argv root_path command_runner cmd tr H.
  rewrite (main_resolves _ _ _ _ command_runner _ _ H).
  unfold is_not_found, is_container_result, die, Command.command.
  cbn [stdout stderr runner_calls].
  split.
  - intros ->. now rewrite !string_append_assoc.
  - intros C. apply andb_true_iff in C as [-> ->]. cbn [negb].
    now rewrite !string_append_assoc.
Qed.

Lemma main_reports_unrunnable_command_witness :
  main sample_env sample_fs (Some ["a"; "x"; "y"]) None None
  = (mkOutput "" ("sub: no such command `a x'" ++ newline) [], SystemExit 1)
  /\ main sample_env sample_fs (Some ["a"; "b"]) None None
     = (mkOutput "" ("sub: can't run a container `a b'" ++ newline) [], SystemExit 1).
Proof.
  split.
  - apply (proj1 (main_reports_unrunnable_command sample_env sample_fs
                    (Some ["a"; "x"; "y"]) None None
                    (Command.create_not_found ["a"; "x"])
                    [IsDir "/opt/sub/commands/a"; IsDir "/opt/sub/commands/a/x";
                     AccessX "/opt/sub/commands/a/x";
                     AccessX "/opt/sub/commands/a/sh-x"]
                    eq_refl)).
    reflexivity.
  - apply (proj2 (main_reports_unrunnable_command sample_env sample_fs
                    (Some ["a"; "b"]) None None
                    (Command.mk ["a"; "b"] (Some "/opt/sub/commands/a/b")
                       (Some false) (Some true) (Some []))
                    [IsDir "/opt/sub/commands/a"; IsDir "/opt/sub/commands/a/b"]
                    eq_refl)).
    reflexivity.
Defined.

(** C9, as the claim words it, fails: on the tokens [a x y] of the sample
    installation the resolution yields not-found with [a x] consumed, and
    what [main] writes to standard error is not the message with two
    straight single quotes, with or without a final newline. *)
Lemma main_message_is_not_straight_quoted :
  (exists tr,
      run sample_fs (find_command_path ["a"; "x"; "y"] sample_paths None)
      = (Ok (Command.create_not_found ["a"; "x"]), tr))
  /\ SubPaths.name sample_paths = "sub"
  /\ snd (main sample_env sample_fs (Some ["a"; "x"; "y"]) None None) = SystemExit 1
  /\ stderr (fst (main sample_env sample_fs (Some ["a"; "x"; "y"]) None None))
     <> "sub: no such command 'a x'"
  /\ stderr (fst (main sample_env sample_fs (Some ["a"; "x"; "y"]) None None))
     <> ("sub: no such command 'a x'" ++ newline)%string.
Proof.
  split; [eexists; reflexivity|].
  split; [reflexivity|]. split; [reflexivity|].
  split; intros H; apply String.eqb_eq in H; vm_compute in H; discriminate H.
Qed.

(** ** [is_eval] and [found_with_sh] *)

Lemma is_eval_last (c : Command.t) :
  Command.tokens c <> [] ->
  Command.is_eval c = Ok (startswith (last (Command.tokens c) "") "sh-").
Proof.
  intros H. unfold Command.is_eval.
  destruct (exists_last H) as (l & a & ->).
  now rewrite rev_unit, last_last.
Qed.

Lemma startswith_sh_consumable t :
  startswith t "sh-" = true -> consumable t = true.
Proof.
  unfold startswith. destruct t as [|c s]; cbn [prefix]; [discriminate|].
  destruct (ascii_dec "s" c) as [<-|]; [reflexivity | discriminate].
Qed.

(** C10.  On every returned command, which has at least one consumed
    token, [is_eval] tells whether the last consumed token is spelled with
    the prefix [sh-], whatever way the command was found.  A leaf found by
    the [sh-] fallback on a token not spelled [sh-...] has [is_eval] false
    and [found_with_sh()] true; a leaf found by a direct match on a token
    spelled [sh-...] has [is_eval] true and [found_with_sh()] false. *)
Theorem is_eval_follows_token_spelling :
  forall fs paths sd,
    (forall argv cmd tr,
        run fs (find_command_path argv paths sd) = (Ok cmd, tr) ->
        Command.tokens cmd <> []
        /\ Command.is_eval cmd
           = Ok (startswith (last (Command.tokens cmd) "") "sh-"))
    /\ (forall pre t rest,
           descends fs (start_path paths sd) pre = true ->
           consumable t = true ->
           startswith t "sh-" = false ->
           fs_isdir fs (PosixPath.join (descend_dir (start_path paths sd) pre) t) = false ->
           fs_access_X_OK fs
             (PosixPath.join (descend_dir (start_path paths sd) pre) t) = Some false ->
           fs_access_X_OK fs
             (PosixPath.join (descend_dir (start_path paths sd) pre) ("sh-" ++ t)) = Some true ->
           exists cmd tr,
             run fs (find_command_path (pre ++ t :: rest) paths sd) = (Ok cmd, tr)
             /\ is_leaf cmd = true
             /\ Command.path cmd
                = Some (PosixPath.join (descend_dir (start_path paths sd) pre)
                          ("sh-" ++ t))
             /\ Command.is_eval cmd = Ok false
             /\ Command.found_with_sh cmd = Some true)
    /\ (forall pre t rest,
           descends fs (start_path paths sd) pre = true ->
           startswith t "sh-" = true ->
           fs_isdir fs (PosixPath.join (descend_dir (start_path paths sd) pre) t) = false ->
           fs_access_X_OK fs
             (PosixPath.join (descend_dir (start_path paths sd) pre) t) = Some true ->
           exists cmd tr,
             run fs (find_command_path (pre ++ t :: rest) paths sd) = (Ok cmd, tr)
             /\ is_leaf cmd = true
             /\ Command.path cmd
                = Some (PosixPath.join (descend_dir (start_path paths sd) pre) t)
             /\ Command.is_eval cmd = Ok true
             /\ Command.found_with_sh cmd = Some false).
Proof.
  intros fs paths sd. split; [|split].
  - intros argv cmd tr H.
    assert (N : Command.tokens cmd <> []).
    { returned_cases H; cbn [Command.tokens]; auto;
        intros E; now apply app_eq_nil in E as [_ E]. }
    split; [exact N | now apply is_eval_last].
  - intros pre t rest Hpre Hc Hs D X XS. do 2 eexists. split.
    + now apply resolve_sh.
    + repeat split. unfold Command.is_eval. cbn [Command.tokens].
      now rewrite rev_unit, Hs.
  - intros pre t rest Hpre Hs D X. do 2 eexists. split.
    + apply resolve_direct; auto using startswith_sh_consumable.
    + repeat split. unfold Command.is_eval. cbn [Command.tokens].
      now rewrite rev_unit, Hs.
Qed.

Lemma is_eval_follows_token_spelling_witness :
  (Command.tokens (Command.create_not_found ["a"; "x"]) <> []
   /\ Command.is_eval (Command.create_not_found ["a"; "x"]) = Ok false)
  /\ (exists cmd tr,
         run sample_fs (find_command_path ([] ++ "foo" :: ["x"]) sample_paths None)
         = (Ok cmd, tr)
         /\ is_leaf cmd = true
         /\ Command.path cmd = Some "/opt/sub/commands/sh-foo"
         /\ Command.is_eval cmd = Ok false
         /\ Command.found_with_sh cmd = Some true)
  /\ (exists cmd tr,
         run sample_fs (find_command_path ([] ++ "sh-foo" :: ["x"]) sample_paths None)
         = (Ok cmd, tr)
         /\ is_leaf cmd = true
         /\ Command.path cmd = Some "/opt/sub/commands/sh-foo"
         /\ Command.is_eval cmd = Ok true
         /\ Command.found_with_sh cmd = Some false).
Proof.
  destruct (is_eval_follows_token_spelling sample_fs sample_paths None)
    as (A & B & C).
  split; [|split].
  - apply (A ["a"; "x"; "y"] (Command.create_not_found ["a"; "x"])
             [IsDir "/opt/sub/commands/a"; IsDir "/opt/sub/commands/a/x";
              AccessX "/opt/sub/commands/a/x"; AccessX "/opt/sub/commands/a/sh-x"]).
    reflexivity.
  - apply (B [] "foo" ["x"]); reflexivity.
  - apply (C [] "sh-foo" ["x"]); reflexivity.
Defined.

(** * Further properties *)

(** ** When [find_command_path] returns and when it raises *)

(** The outcome of a call, with the case it falls under. *)
Ltac outcome_cases r tr :=
  match goal with
  | |- context [run ?fs (find_command_path ?argv ?paths ?sd)] =>
      let R := fresh "R" in
      let E := fresh "E" in
      pose proof (find_command_path_resolution fs _ argv paths sd eq_refl) as R;
      destruct (run fs (find_command_path argv paths sd)) as [r tr] eqn:E;
      inversion R; subst; clear R
  end.

Lemma has_nul_append a b : has_nul (a ++ b) = has_nul a || has_nul b.
Proof.
  induction a as [|c a IH]; [reflexivity|]. simpl. now rewrite IH, orb_assoc.
Qed.

Lemma has_nul_join a b :
  has_nul a = false -> has_nul b = false -> has_nul (PosixPath.join a b) = false.
Proof.
  intros Ha Hb. unfold PosixPath.join.
  destruct (startswith b "/"); [exact Hb|].
  destruct (String.eqb a "" || endswith_slash a);
    rewrite !has_nul_append, ?Ha, ?Hb; reflexivity.
Qed.

Lemma has_nul_descend_dir pre :
  forall d, has_nul d = false ->
            forallb (fun t => negb (has_nul t)) pre = true ->
            has_nul (descend_dir d pre) = false.
Proof.
  induction pre as [|t pre IH]; intros d Hd H; [exact Hd|].
  simpl in H. apply andb_true_iff in H as [Ht Hpre]. apply negb_true_iff in Ht.
  apply (IH (PosixPath.join d t)); auto using has_nul_join.
Qed.

(** The oracle of a listed tree raises on paths with a null character only. *)
Lemma fs_of_access_raises_on_nul_only tree : access_raises_on_nul_only (fs_of tree).
Proof.
  intros p. cbn [fs_of fs_access_X_OK].
  destruct (has_nul p); [reflexivity|].
  destruct (lookup p tree) as [[x|x]|]; discriminate.
Qed.

(** X1.  Where [os.access] raises on no other path than one with a null
    character, and neither the directory the scan starts from nor any token
    holds a null character, [find_command_path] returns a [Command] on
    every token list whose first token does not begin with ['-'] and which
    holds no empty token. *)
Theorem returns_on_well_formed_tokens :
  forall fs paths sd a rest,
    access_raises_on_nul_only fs ->
    has_nul (start_path paths sd) = false ->
    forallb (fun t => negb (has_nul t)) (a :: rest) = true ->
    is_flag a = false ->
    ~ In "" (a :: rest) ->
    exists cmd tr,
      run fs (find_command_path (a :: rest) paths sd) = (Ok cmd, tr).
Proof.
  intros fs paths sd a rest Hfs Hs Hn Hf Hne.
  assert (N : forall pre t rest',
             a :: rest = pre ++ t :: rest' ->
             has_nul (PosixPath.join (descend_dir (start_path paths sd) pre) t) = false
             /\ has_nul (PosixPath.join (descend_dir (start_path paths sd) pre)
                           ("sh-" ++ t)) = false).
  { intros pre t rest' E. rewrite E, forallb_app in Hn.
    apply andb_true_iff in Hn as [Hpre Ht]. simpl in Ht.
    apply andb_true_iff in Ht as [Ht _]. apply negb_true_iff in Ht.
    split; apply has_nul_join; auto using has_nul_descend_dir. }
  outcome_cases r tr; eauto; try congruence.
  - (* os.access raises on the token *)
    match goal with
    | E : a :: rest = _ ++ _ :: _, X : fs_access_X_OK _ _ = None |- _ =>
        destruct (N _ _ _ E) as [N1 _]; apply Hfs in X; congruence
    end.
  - (* os.access raises on its sh- companion *)
    match goal with
    | E : a :: rest = _ ++ _ :: _, X : fs_access_X_OK _ _ = None |- _ =>
        destruct (N _ _ _ E) as [_ N2]; apply Hfs in X; congruence
    end.
  - (* an empty token *)
    exfalso. apply Hne.
    match goal with H : a :: rest = _ |- _ => rewrite H end.
    apply in_or_app. right. now left.
Qed.

Lemma returns_on_well_formed_tokens_witness :
  exists cmd tr,
    run sample_fs (find_command_path ["deploy"; "staging"; "--force"] sample_paths None)
    = (Ok cmd, tr).
Proof.
  apply (returns_on_well_formed_tokens sample_fs sample_paths None
           "deploy" ["staging"; "--force"]).
  - apply fs_of_access_raises_on_nul_only.
  - reflexivity.
  - reflexivity.
  - reflexivity.
  - simpl. intros [H|[H|[H|[]]]]; discriminate H.
Defined.

(** X2.  [find_command_path] raises [UnboundLocalError] exactly when the
    token list is empty or its first token begins with ['-']; no probe was
    made then. *)
Theorem raises_unbound_local_iff :
  forall fs argv paths sd tr,
    run fs (find_command_path argv paths sd) = (Raise UnboundLocalError, tr)
    <-> tr = []
        /\ (argv = [] \/ exists f rest, argv = f :: rest /\ is_flag f = true).
Proof.
  intros fs argv paths sd tr. split.
  - intros H.
    pose proof (find_command_path_resolution fs _ argv paths sd eq_refl) as R.
    rewrite H in R. inversion R; subst; clear R; split; eauto.
  - intros [-> [->|(f & rest & -> & Hf)]].
    + apply resolve_unbound_empty; exact fs.
    + now apply resolve_unbound_flag with (start := start_path paths sd).
Qed.

Lemma raises_unbound_local_iff_witness :
  run sample_fs (find_command_path ["-v"; "a"] sample_paths None)
  = (Raise UnboundLocalError, []).
Proof.
  apply (proj2 (raises_unbound_local_iff sample_fs ["-v"; "a"] sample_paths None [])).
  split; [reflexivity|]. right. exists "-v", ["a"]. split; reflexivity.
Defined.

(** X3.  [find_command_path] raises [IndexError] exactly when an empty token
    comes right after a run of tokens that were all descended into as
    directories (possibly none); the probes made are those of that run. *)
Theorem raises_index_error_iff :
  forall fs argv paths sd tr,
    run fs (find_command_path argv paths sd) = (Raise IndexError, tr)
    <-> exists pre rest,
          argv = pre ++ "" :: rest
          /\ descends fs (start_path paths sd) pre = true
          /\ tr = descend_probes (start_path paths sd) pre.
Proof.
  intros fs argv paths sd tr. split.
  - intros H.
    pose proof (find_command_path_resolution fs _ argv paths sd eq_refl) as R.
    rewrite H in R. inversion R; subst; clear R. eauto.
  - intros (pre & rest & -> & Hd & ->). now apply resolve_index_error.
Qed.

Lemma raises_index_error_iff_witness :
  run sample_fs (find_command_path (["a"; "b"] ++ "" :: ["x"]) sample_paths None)
  = (Raise IndexError, descend_probes (start_path sample_paths None) ["a"; "b"]).
Proof.
  apply (proj2 (raises_index_error_iff sample_fs (["a"; "b"] ++ "" :: ["x"])
                  sample_paths None
                  (descend_probes (start_path sample_paths None) ["a"; "b"]))).
  exists ["a"; "b"], ["x"]. repeat split.
Defined.

(** ** What a returned [Command] holds *)

Lemma descends_reaches_directory fs pre :
  forall d, pre <> [] -> descends fs d pre = true ->
            fs_isdir fs (descend_dir d pre) = true.
Proof.
  induction pre as [|t pre IH]; intros d Hne H; [contradiction|].
  simpl in H. apply andb_true_iff in H as [H Hpre].
  apply andb_true_iff in H as [_ Hd].
  destruct pre as [|u pre]; [exact Hd|].
  apply (IH (PosixPath.join d t)); [discriminate | exact Hpre].
Qed.

(** X4.  The path of a container is a directory: [os.path.isdir] answered
    yes on it. *)
Theorem container_path_is_directory :
  forall fs argv paths sd cmd tr,
    run fs (find_command_path argv paths sd) = (Ok cmd, tr) ->
    is_container_result cmd = true ->
    exists p, Command.path cmd = Some p /\ fs_isdir fs p = true.
Proof.
  intros fs argv paths sd cmd tr H C.
  returned_cases H; try discriminate C; eexists; split; try reflexivity;
    now apply descends_reaches_directory.
Qed.

Lemma container_path_is_directory_witness :
  exists p, Command.path sample_container = Some p /\ fs_isdir sample_fs p = true.
Proof.
  apply (container_path_is_directory sample_fs ["a"; "b"] sample_paths None
           sample_container
           [IsDir "/opt/sub/commands/a"; IsDir "/opt/sub/commands/a/b"]);
    reflexivity.
Defined.

Lemma leaf_found_how_witness :
  exists pre t p,
    Command.tokens sample_leaf_sh = pre ++ [t]
    /\ descends sample_fs (start_path sample_paths None) pre = true
    /\ Command.path sample_leaf_sh = Some p
    /\ fs_access_X_OK sample_fs p = Some true
    /\ fs_isdir sample_fs
         (PosixPath.join (descend_dir (start_path sample_paths None) pre) t) = false
    /\ ((Command.is_sh sample_leaf_sh = Some false
         /\ p = PosixPath.join (descend_dir (start_path sample_paths None) pre) t)
        \/ (Command.is_sh sample_leaf_sh = Some true
            /\ p = PosixPath.join (descend_dir (start_path sample_paths None) pre)
                     ("sh-" ++ t)
            /\ fs_access_X_OK sample_fs
                 (PosixPath.join (descend_dir (start_path sample_paths None) pre) t)
               = Some false)).
Proof.
  apply (leaf_found_how sample_fs ["foo"; "x"] sample_paths None sample_leaf_sh
           [IsDir "/opt/sub/commands/foo"; AccessX "/opt/sub/commands/foo";
            AccessX "/opt/sub/commands/sh-foo"]);
    reflexivity.
Defined.

(** X6.  A not-found result comes from three failed probes of its last
    token: the tokens before it were descended into as directories, and in
    the directory reached the last token is no directory, no executable, and
    has no executable [sh-] companion. *)
Theorem not_found_how :
  forall fs argv paths sd cmd tr,
    run fs (find_command_path argv paths sd) = (Ok cmd, tr) ->
    is_not_found cmd = true ->
    exists pre t,
      Command.tokens cmd = pre ++ [t]
      /\ descends fs (start_path paths sd) pre = true
      /\ fs_isdir fs (PosixPath.join (descend_dir (start_path paths sd) pre) t) = false
      /\ fs_access_X_OK fs
           (PosixPath.join (descend_dir (start_path paths sd) pre) t) = Some false
      /\ fs_access_X_OK fs
           (PosixPath.join (descend_dir (start_path paths sd) pre) ("sh-" ++ t)) = Some false.
Proof.
  intros fs argv paths sd cmd tr H N.
  returned_cases H; try discriminate N.
  exists pre, t. auto.
Qed.

Lemma not_found_how_witness :
  exists pre t,
    Command.tokens sample_not_found = pre ++ [t]
    /\ descends sample_fs (start_path sample_paths None) pre = true
    /\ fs_isdir sample_fs
         (PosixPath.join (descend_dir (start_path sample_paths None) pre) t) = false
    /\ fs_access_X_OK sample_fs
         (PosixPath.join (descend_dir (start_path sample_paths None) pre) t) = Some false
    /\ fs_access_X_OK sample_fs
         (PosixPath.join (descend_dir (start_path sample_paths None) pre) ("sh-" ++ t))
       = Some false.
Proof.
  apply (not_found_how sample_fs ["a"; "x"; "y"] sample_paths None sample_not_found
           [IsDir "/opt/sub/commands/a"; IsDir "/opt/sub/commands/a/x";
            AccessX "/opt/sub/commands/a/x"; AccessX "/opt/sub/commands/a/sh-x"]);
    reflexivity.
Defined.

(** X7.  The arguments of a container leave out the flag the scan stopped
    at: either every token was consumed and there are no arguments, or the
    token list is the consumed tokens, then a token beginning with ['-'],
    then the arguments. *)
Theorem container_arguments_skip_flag :
  forall fs argv paths sd cmd tr,
    run fs (find_command_path argv paths sd) = (Ok cmd, tr) ->
    is_container_result cmd = true ->
    exists args,
      Command.arguments cmd = Some args
      /\ ((args = [] /\ argv = Command.tokens cmd)
          \/ (exists f, is_flag f = true /\ argv = Command.tokens cmd ++ f :: args)).
Proof.
  intros fs argv paths sd cmd tr H C.
  returned_cases H; try discriminate C; eexists; split; try reflexivity;
    cbn [Command.tokens]; eauto.
Qed.

Lemma container_arguments_skip_flag_witness :
  exists args,
    Some ["now"] = Some args
    /\ ((args = [] /\ ["deploy"; "--force"; "now"] = ["deploy"])
        \/ (exists f, is_flag f = true
                      /\ ["deploy"; "--force"; "now"] = ["deploy"] ++ f :: args)).
Proof.
  apply (container_arguments_skip_flag sample_fs ["deploy"; "--force"; "now"]
           sample_paths None
           (Command.mk ["deploy"] (Some "/opt/sub/commands/deploy")
              (Some false) (Some true) (Some ["now"]))
           [IsDir "/opt/sub/commands/deploy"]);
    reflexivity.
Defined.

(** X8.  A call that returns made at most two probes more than it consumed
    tokens, and consumed no more tokens than it was given. *)
Theorem probes_bounded_by_consumed_tokens :
  forall fs argv paths sd cmd tr,
    run fs (find_command_path argv paths sd) = (Ok cmd, tr) ->
    List.length tr <= List.length (Command.tokens cmd) + 2
    /\ List.length (Command.tokens cmd) <= List.length argv.
Proof.
  intros fs argv paths sd cmd tr H.
  returned_cases H; cbn [Command.tokens];
    rewrite ?length_app, ?descend_probes_length; simpl; lia.
Qed.

Lemma probes_bounded_by_consumed_tokens_witness :
  List.length [IsDir "/opt/sub/commands/foo"; AccessX "/opt/sub/commands/foo";
               AccessX "/opt/sub/commands/sh-foo"]
  <= List.length (Command.tokens sample_leaf_sh) + 2
  /\ List.length (Command.tokens sample_leaf_sh) <= List.length ["foo"; "x"].
Proof.
  apply (probes_bounded_by_consumed_tokens sample_fs ["foo"; "x"] sample_paths None).
  reflexivity.
Defined.

(** X9.  The attributes of a returned command are set together: either the
    path, [is_sh], [is_container] and the arguments are all set, a
    container never being [is_sh], or they are all [None]. *)
Theorem returned_command_all_or_nothing :
  forall fs argv paths sd cmd tr,
    run fs (find_command_path argv paths sd) = (Ok cmd, tr) ->
    (exists p s c args,
        Command.path cmd = Some p /\ Command.is_sh cmd = Some s
        /\ Command.is_container cmd = Some c /\ Command.arguments cmd = Some args
        /\ (c = true -> s = false))
    \/ (Command.path cmd = None /\ Command.is_sh cmd = None
        /\ Command.is_container cmd = None /\ Command.arguments cmd = None).
Proof.
  intros fs argv paths sd cmd tr H.
  returned_cases H; cbn;
    solve [ right; auto
          | left; do 4 eexists; repeat split; auto; discriminate ].
Qed.

Lemma returned_command_all_or_nothing_witness :
  (exists p s c args,
      Command.path sample_container = Some p /\ Command.is_sh sample_container = Some s
      /\ Command.is_container sample_container = Some c
      /\ Command.arguments sample_container = Some args
      /\ (c = true -> s = false))
  \/ (Command.path sample_container = None /\ Command.is_sh sample_container = None
      /\ Command.is_container sample_container = None
      /\ Command.arguments sample_container = None).
Proof.
  apply (returned_command_all_or_nothing sample_fs ["a"; "b"] sample_paths None
           sample_container
           [IsDir "/opt/sub/commands/a"; IsDir "/opt/sub/commands/a/b"]).
  reflexivity.
Defined.

(** ** What the result depends on *)

(** X10.  The tokens after the one that decided the resolution are opaque.
    Replace what follows the consumed tokens of a leaf by any other tokens:
    the same leaf is found through the same probes, with those tokens as
    its arguments.  Likewise, a not-found result is the same whatever
    follows its consumed tokens. *)
Theorem trailing_tokens_are_opaque :
  forall fs argv paths sd cmd tr rest',
    run fs (find_command_path argv paths sd) = (Ok cmd, tr) ->
    (is_leaf cmd = true ->
     run fs (find_command_path (Command.tokens cmd ++ rest') paths sd)
     = (Ok (Command.mk (Command.tokens cmd) (Command.path cmd) (Command.is_sh cmd)
              (Command.is_container cmd) (Some rest')),
        tr))
    /\ (is_not_found cmd = true ->
        run fs (find_command_path (Command.tokens cmd ++ rest') paths sd)
        = (Ok cmd, tr)).
Proof.
  intros fs argv paths sd cmd tr rest' H.
  returned_cases H; cbn [Command.tokens Command.path Command.is_sh
                           Command.is_container];
    (split; intros K; try discriminate K); rewrite <- app_assoc; cbn [app].
  - now apply resolve_direct.
  - now apply resolve_sh.
  - now apply resolve_not_found.
Qed.

Lemma trailing_tokens_are_opaque_witness :
  run sample_fs
    (find_command_path (Command.tokens sample_leaf ++ ["-n"; "--"; "deploy"])
       sample_paths None)
  = (Ok (Command.mk (Command.tokens sample_leaf) (Command.path sample_leaf)
           (Command.is_sh sample_leaf) (Command.is_container sample_leaf)
           (Some ["-n"; "--"; "deploy"])),
     [IsDir "/opt/sub/commands/deploy"; IsDir "/opt/sub/commands/deploy/staging";
      AccessX "/opt/sub/commands/deploy/staging"])
  /\ run sample_fs
       (find_command_path (Command.tokens sample_not_found ++ ["b"]) sample_paths None)
     = (Ok sample_not_found,
        [IsDir "/opt/sub/commands/a"; IsDir "/opt/sub/commands/a/x";
         AccessX "/opt/sub/commands/a/x"; AccessX "/opt/sub/commands/a/sh-x"]).
Proof.
  split.
  - apply (proj1 (trailing_tokens_are_opaque sample_fs
                    ["deploy"; "staging"; "--force"; "now"] sample_paths None
                    sample_leaf _ ["-n"; "--"; "deploy"] eq_refl)).
    reflexivity.
  - apply (proj2 (trailing_tokens_are_opaque sample_fs
                    ["a"; "x"; "y"] sample_paths None
                    sample_not_found _ ["b"] eq_refl)).
    reflexivity.
Defined.

(** X11.  Resolving through a directory is resolving from that directory.
    When the first token is consumed and names a directory, and the
    remaining tokens resolve from that directory (given as [start_dir]) to a
    command, then the whole token list resolves to the same command with
    the first token put before its tokens, after one more probe. *)
Theorem resolve_through_directory :
  forall fs paths paths' sd t rest cmd tr,
    consumable t = true ->
    fs_isdir fs (PosixPath.join (start_path paths sd) t) = true ->
    run fs (find_command_path rest paths'
              (Some (PosixPath.join (start_path paths sd) t))) = (Ok cmd, tr) ->
    run fs (find_command_path (t :: rest) paths sd)
    = (Ok (Command.mk (t :: Command.tokens cmd) (Command.path cmd)
             (Command.is_sh cmd) (Command.is_container cmd) (Command.arguments cmd)),
       IsDir (PosixPath.join (start_path paths sd) t) :: tr).
Proof.
  intros fs paths paths' sd t rest cmd tr Hc Hd H.
  assert (D : forall pre,
             descends fs (PosixPath.join (start_path paths sd) t) pre = true ->
             descends fs (start_path paths sd) (t :: pre) = true).
  { intros pre Hp. simpl. now rewrite Hc, Hd, Hp. }
  returned_cases H;
    cbn [start_path Command.tokens Command.path Command.is_sh
           Command.is_container Command.arguments] in *.
  - apply (resolve_direct fs _ paths sd eq_refl (t :: pre)); auto.
  - apply (resolve_sh fs _ paths sd eq_refl (t :: pre)); auto.
  - apply (resolve_not_found fs _ paths sd eq_refl (t :: pre)); auto.
  - apply (resolve_exhausted fs _ paths sd eq_refl (t :: rest)); auto. discriminate.
  - apply (resolve_flag fs _ paths sd eq_refl (t :: pre)); auto. discriminate.
Qed.

Lemma resolve_through_directory_witness :
  run sample_fs (find_command_path ("deploy" :: ["staging"; "now"]) sample_paths None)
  = (Ok (Command.mk ["deploy"; "staging"] (Some "/opt/sub/commands/deploy/staging")
           (Some false) (Some false) (Some ["now"])),
     [IsDir "/opt/sub/commands/deploy"; IsDir "/opt/sub/commands/deploy/staging";
      AccessX "/opt/sub/commands/deploy/staging"]).
Proof.
  apply (resolve_through_directory sample_fs sample_paths sample_paths None
           "deploy" ["staging"; "now"]
           (Command.mk ["staging"] (Some "/opt/sub/commands/deploy/staging")
              (Some false) (Some false) (Some ["now"]))
           [IsDir "/opt/sub/commands/deploy/staging";
            AccessX "/opt/sub/commands/deploy/staging"]);
    reflexivity.
Defined.

Lemma join_absolute d t : startswith t "/" = true -> PosixPath.join d t = t.
Proof. unfold PosixPath.join. now intros ->. Qed.

Lemma absolute_consumable t : startswith t "/" = true -> consumable t = true.
Proof.
  unfold startswith. destruct t as [|c s]; cbn [prefix]; [discriminate|].
  destruct (ascii_dec "/" c) as [<-|]; [reflexivity | discriminate].
Qed.

(** X12.  A token that begins with ['/'] is looked up as it is, outside the
    directory the scan has reached: [os.path.join] drops what comes before
    an absolute component.  If that absolute path is an executable and no
    directory, it is the leaf that is returned, from any command tree. *)
Theorem absolute_token_leaves_tree :
  forall fs paths sd pre t rest,
    descends fs (start_path paths sd) pre = true ->
    startswith t "/" = true ->
    fs_isdir fs t = false ->
    fs_access_X_OK fs t = Some true ->
    run fs (find_command_path (pre ++ t :: rest) paths sd)
    = (Ok (Command.mk (pre ++ [t]) (Some t) (Some false) (Some false) (Some rest)),
       descend_probes (start_path paths sd) pre ++ [IsDir t; AccessX t]).
Proof.
  intros fs paths sd pre t rest Hpre Ha D X.
  pose proof (join_absolute (descend_dir (start_path paths sd) pre) t Ha) as J.
  rewrite (resolve_direct fs _ paths sd eq_refl pre t rest Hpre);
    rewrite ?J; auto using absolute_consumable.
Qed.

Lemma absolute_token_leaves_tree_witness :
  run (fs_of (("/bin/sh", File true) :: sample_tree))
    (find_command_path (["a"] ++ "/bin/sh" :: ["-c"; "id"]) sample_paths None)
  = (Ok (Command.mk (["a"] ++ ["/bin/sh"]) (Some "/bin/sh") (Some false) (Some false)
           (Some ["-c"; "id"])),
     descend_probes (start_path sample_paths None) ["a"]
       ++ [IsDir "/bin/sh"; AccessX "/bin/sh"]).
Proof.
  apply (absolute_token_leaves_tree (fs_of (("/bin/sh", File true) :: sample_tree))
           sample_paths None ["a"] "/bin/sh" ["-c"; "id"]);
    reflexivity.
Defined.

Lemma agree_descends fs1 fs2 pre :
  forall d, agree_on fs1 fs2 (descend_probes d pre) ->
            descends fs1 d pre = true -> descends fs2 d pre = true.
Proof.
  induction pre as [|t pre IH]; intros d A H; [reflexivity|].
  simpl in *. inversion A as [|pr l Hpr Hl]; subst. simpl in Hpr.
  injection Hpr as Hpr.
  apply andb_true_iff in H as [H Hpre]. apply andb_true_iff in H as [Hc Hd].
  rewrite Hc, <- Hpr, Hd. simpl. now apply IH.
Qed.

(** Split an agreement on a log into the agreement on the run of
    directories and the answers to the last probes. *)
Ltac split_agreement A :=
  unfold agree_on in A;
  try (apply Forall_app in A as [? A]);
  repeat match goal with
         | H : Forall _ (_ :: _) |- _ => inversion H; subst; clear H
         end;
  cbn [probe_answer] in *;
  repeat match goal with
         | H : Some (fs_isdir _ _) = Some (fs_isdir _ _) |- _ => injection H as H
         end.

(** X13.  The result depends on the file system through the probes made
    and nothing else: a file system that answers alike to each probe of the
    log of a call gives the same outcome, returned or raised, and the same
    log. *)
Theorem result_depends_on_probes_only :
  forall fs1 fs2 argv paths sd r tr,
    run fs1 (find_command_path argv paths sd) = (r, tr) ->
    agree_on fs1 fs2 tr ->
    run fs2 (find_command_path argv paths sd) = (r, tr).
Proof.
  intros fs1 fs2 argv paths sd r tr H A.
  pose proof (find_command_path_resolution fs1 _ argv paths sd eq_refl) as R.
  rewrite H in R. inversion R; subst; clear R H.
  - split_agreement A.
    apply resolve_direct; eauto using agree_descends;
      cbn [String.append] in *; congruence.
  - split_agreement A.
    apply resolve_sh; eauto using agree_descends;
      cbn [String.append] in *; congruence.
  - split_agreement A.
    apply resolve_not_found; eauto using agree_descends;
      cbn [String.append] in *; congruence.
  - split_agreement A.
    apply resolve_access_raises; eauto using agree_descends;
      cbn [String.append] in *; congruence.
  - split_agreement A.
    apply resolve_sh_access_raises; eauto using agree_descends;
      cbn [String.append] in *; congruence.
  - apply resolve_exhausted; eauto using agree_descends.
  - apply resolve_flag; eauto using agree_descends.
  - apply resolve_unbound_empty; exact fs2.
  - now apply resolve_unbound_flag with (start := start_path paths sd).
  - apply resolve_index_error; eauto using agree_descends.
Qed.

Lemma result_depends_on_probes_only_witness :
  run other_fs (find_command_path ["a"; "x"; "y"] sample_paths None)
  = (Ok sample_not_found,
     [IsDir "/opt/sub/commands/a"; IsDir "/opt/sub/commands/a/x";
      AccessX "/opt/sub/commands/a/x"; AccessX "/opt/sub/commands/a/sh-x"]).
Proof.
  apply (result_depends_on_probes_only sample_fs other_fs).
  - reflexivity.
  - repeat constructor.
Defined.

(** ** [main], outcome by outcome *)

(** X14.  Without tokens, or with [-h] or [--help] as the first token,
    [main] prints the help line on standard output and returns 0; it does
    not look at the file system and runs nothing. *)
Theorem main_help :
  forall env fs argv root_path command_runner,
    (effective_argv env argv = []
     \/ exists a rest, effective_argv env argv = a :: rest
                       /\ (a = "-h" \/ a = "--help")) ->
    main env fs argv root_path command_runner
    = (mkOutput ("subdue help" ++ newline) "" [], Returns (Some 0)).
Proof.
  intros env fs argv root_path command_runner H. unfold main. fold (effective_argv env argv).
  destruct H as [->|(a & rest & -> & [->| ->])]; reflexivity.
Qed.

Lemma main_help_witness :
  main sample_env sample_fs None None None
  = (mkOutput ("subdue help" ++ newline) "" [], Returns (Some 0))
  /\ main sample_env other_fs (Some ["--help"; "a"]) None None
     = (mkOutput ("subdue help" ++ newline) "" [], Returns (Some 0)).
Proof.
  split.
  - apply (main_help sample_env sample_fs None None None). left. reflexivity.
  - apply (main_help sample_env other_fs (Some ["--help"; "a"]) None None).
    right. exists "--help", ["a"]. split; [reflexivity | now right].
Defined.

(** X15.  When the resolution yields a leaf, [main] writes nothing itself
    and calls the runner once, with the path of the leaf followed by its
    arguments; the consumed tokens and those arguments make up the token
    list.  [main] then ends as the runner does, returning [None] if the
    runner returns.  With the default runner, [os.execvp], the process is
    replaced by the command, or [main] raises what [os.execvp] raised. *)
Theorem main_runs_leaf :
  forall env fs argv root_path command_runner cmd tr,
    run fs (find_command_path (effective_argv env argv)
              (SubPaths.init env root_path) None) = (Ok cmd, tr) ->
    is_leaf cmd = true ->
    exists p args,
      Command.path cmd = Some p
      /\ Command.arguments cmd = Some args
      /\ Command.tokens cmd ++ args = effective_argv env argv
      /\ main env fs argv root_path command_runner
         = (let '(out, err, t) :=
              api_runner env command_runner (Some p :: map Some args) in
            (mkOutput out err [Some p :: map Some args], after_runner t))
      /\ (command_runner = None ->
          main env fs argv root_path command_runner
          = (mkOutput "" "" [Some p :: map Some args],
             match os_execvp env (Some p) (Some p :: map Some args) with
             | None => ProcessReplaced
             | Some e => Raises e
             end)).
Proof.
  intros env fs argv root_path command_runner cmd tr H L.
  rewrite (main_resolves _ _ _ _ command_runner _ _ H).
  returned_cases H; try discriminate L; do 2 eexists;
    cbn [Command.path Command.arguments Command.tokens Command.found
           Command.is_container Command.run_with truthy negb];
    (split; [reflexivity|]); (split; [reflexivity|]);
    (split; [rewrite <- app_assoc; symmetry; assumption|]);
    (split; [reflexivity|]);
    intros ->; cbn [api_runner execvp_runner];
    destruct (os_execvp env _ _); reflexivity.
Qed.

Lemma main_runs_leaf_witness :
  exists p args,
    Command.path sample_leaf = Some p
    /\ Command.arguments sample_leaf = Some args
    /\ Command.tokens sample_leaf ++ args
       = effective_argv sample_env (Some ["deploy"; "staging"; "--force"; "now"])
    /\ main sample_env sample_fs (Some ["deploy"; "staging"; "--force"; "now"]) None
         (Some returning_runner)
       = (mkOutput "" "" [Some p :: map Some args], Returns None)
    /\ main sample_env sample_fs (Some ["deploy"; "staging"; "--force"; "now"]) None
         None
       = (mkOutput "" "" [Some p :: map Some args], ProcessReplaced).
Proof.
  destruct (main_runs_leaf sample_env sample_fs
              (Some ["deploy"; "staging"; "--force"; "now"]) None
              (Some returning_runner) sample_leaf
              [IsDir "/opt/sub/commands/deploy";
               IsDir "/opt/sub/commands/deploy/staging";
               AccessX "/opt/sub/commands/deploy/staging"]
              eq_refl eq_refl) as (p & args & P & A & T & M & _).
  destruct (main_runs_leaf sample_env sample_fs
              (Some ["deploy"; "staging"; "--force"; "now"]) None
              None sample_leaf
              [IsDir "/opt/sub/commands/deploy";
               IsDir "/opt/sub/commands/deploy/staging";
               AccessX "/opt/sub/commands/deploy/staging"]
              eq_refl eq_refl) as (p' & args' & P' & A' & _ & _ & M').
  exists p, args.
  assert (Ep : p' = p) by congruence. assert (Ea : args' = args) by congruence.
  subst p' args'.
  repeat split; [exact P | exact A | exact T | exact M | exact (M' eq_refl)].
Defined.

(** X16.  With a first token that begins with ['-'] and is neither [-h] nor
    [--help], [main] ends on [UnboundLocalError]: nothing is written, no
    command is run, no exit status is chosen. *)
Theorem main_flag_first_raises :
  forall env fs argv root_path command_runner f rest,
    effective_argv env argv = f :: rest ->
    is_flag f = true ->
    f <> "-h" -> f <> "--help" ->
    main env fs argv root_path command_runner = (mkOutput "" "" [], Raises UnboundLocalError).
Proof.
  intros env fs argv root_path command_runner f rest E Hf Nh Nhelp.
  unfold main. fold (effective_argv env argv). rewrite E.
  cbn [List.length Nat.ltb Nat.leb existsb orb].
  apply String.eqb_neq in Nh, Nhelp. rewrite Nh, Nhelp. cbn [orb].
  now rewrite (resolve_unbound_flag fs _ (SubPaths.init env root_path) None
                 f rest eq_refl Hf).
Qed.

Lemma main_flag_first_raises_witness :
  main sample_env sample_fs (Some ["-v"; "deploy"; "staging"]) None None
  = (mkOutput "" "" [], Raises UnboundLocalError).
Proof.
  apply (main_flag_first_raises sample_env sample_fs
           (Some ["-v"; "deploy"; "staging"]) None None "-v" ["deploy"; "staging"]);
    [reflexivity | reflexivity | discriminate | discriminate].
Defined.

(** X17.  Whatever the input and the runner, a run of [main] is of one of
    four kinds: the help line on standard output and 0 returned; a message
    and a newline on standard error and exit code 1, the runner not having
    been called; one call of the runner on a path followed by arguments,
    [main] having written nothing itself and ending as the runner ends; or
    [UnboundLocalError], [IndexError] or [ValueError] raised out of the
    resolution, nothing having been written and the runner not having been
    called.  In particular [main] never hands the runner a missing path,
    and never calls it after it reported an error. *)
Theorem main_outcomes :
  forall env fs argv root_path command_runner o t,
    main env fs argv root_path command_runner = (o, t) ->
    (o = mkOutput ("subdue help" ++ newline) "" [] /\ t = Returns (Some 0))
    \/ (stdout o = "" /\ runner_calls o = [] /\ t = SystemExit 1
        /\ exists msg, stderr o = (msg ++ newline)%string)
    \/ (exists p args out err rt,
          api_runner env command_runner (Some p :: map Some args) = (out, err, rt)
          /\ o = mkOutput out err [Some p :: map Some args]
          /\ t = after_runner rt)
    \/ (o = mkOutput "" "" []
        /\ (t = Raises UnboundLocalError \/ t = Raises IndexError
            \/ t = Raises ValueError)).
Proof.
  intros env fs argv root_path command_runner o t H.
  unfold main in H. fold (effective_argv env argv) in H.
  destruct (effective_argv env argv) as [|a rest] eqn:Ea.
  { injection H as <- <-. left. auto. }
  cbn [List.length Nat.ltb Nat.leb orb] in H.
  destruct (existsb (String.eqb a) ["-h"; "--help"]).
  { injection H as <- <-. left. auto. }
  pose proof (find_command_path_resolution fs _ (a :: rest)
                (SubPaths.init env root_path) None eq_refl) as R.
  destruct (run fs (find_command_path (a :: rest) (SubPaths.init env root_path) None))
    as [r tr].
  inversion R; subst; clear R; unfold die in H;
    cbn [Command.found Command.path Command.is_container Command.run_with
           Command.arguments truthy negb stdout stderr runner_calls app] in H.
  - destruct (api_runner _ _ _) as [[out err] rt] eqn:Er.
    injection H as <- <-. right. right. left. eauto 10.
  - destruct (api_runner _ _ _) as [[out err] rt] eqn:Er.
    injection H as <- <-. right. right. left. eauto 10.
  - injection H as <- <-. right. left. repeat split. eexists. reflexivity.
  - injection H as <- <-. right. right. right. auto.
  - injection H as <- <-. right. right. right. auto.
  - injection H as <- <-. right. left. repeat split. eexists. reflexivity.
  - injection H as <- <-. right. left. repeat split. eexists. reflexivity.
  - injection H as <- <-. right. right. right. auto.
  - injection H as <- <-. right. right. right. auto.
  - injection H as <- <-. right. right. right. auto.
Qed.

Lemma main_outcomes_witness :
  exists p args out err rt,
    api_runner sample_env None (Some p :: map Some args) = (out, err, rt)
    /\ (mkOutput "" "" [[Some "/opt/sub/commands/deploy/staging"; Some "now"]]
        = mkOutput out err [Some p :: map Some args])
    /\ ProcessReplaced = after_runner rt.
Proof.
  destruct (main_outcomes sample_env sample_fs (Some ["deploy"; "staging"; "now"])
              None None
              (mkOutput "" "" [[Some "/opt/sub/commands/deploy/staging"; Some "now"]])
              ProcessReplaced eq_refl)
    as [[_ K]|[(_ & _ & K & _)|[K|[_ [K|[K|K]]]]]]; try discriminate K.
  exact K.
Defined.

(** X18.  After a run of directories, at least one, a flag gets no help,
    not even [--help]: [main] reports the directories as a container that
    cannot be run and exits with code 1. *)
Theorem main_flag_after_directories :
  forall env fs argv root_path command_runner pre f rest,
    effective_argv env argv = pre ++ f :: rest ->
    pre <> [] ->
    descends fs (SubPaths.commands (SubPaths.init env root_path)) pre = true ->
    is_flag f = true ->
    main env fs argv root_path command_runner
    = (mkOutput ""
         (SubPaths.name (SubPaths.init env root_path) ++ ": can't run a container `"
            ++ String.concat " " pre ++ "'" ++ newline)
         [],
       SystemExit 1).
Proof.
  intros env fs argv root_path command_runner pre f rest E Hne Hd Hf.
  pose proof (resolve_flag fs _ (SubPaths.init env root_path) None eq_refl
                pre f rest Hd Hne Hf) as H.
  rewrite <- E in H. rewrite (main_resolves _ _ _ _ command_runner _ _ H).
  unfold die, Command.command.
  cbn [Command.found Command.path Command.is_container Command.tokens truthy
         negb stdout stderr runner_calls].
  now rewrite !string_append_assoc.
Qed.

Lemma main_flag_after_directories_witness :
  main sample_env sample_fs (Some (["a"; "b"] ++ "--help" :: [])) None None
  = (mkOutput "" ("sub: can't run a container `a b'" ++ newline) [], SystemExit 1).
Proof.
  apply (main_flag_after_directories sample_env sample_fs
           (Some (["a"; "b"] ++ "--help" :: [])) None None ["a"; "b"] "--help" []);
    [reflexivity | discriminate | reflexivity | reflexivity].
Defined.

(** ** [path_prepend] *)

(** X19.  [path_prepend] raises [KeyError] when [PATH] is not set, and
    [ValueError] when the directory or the old value of [PATH] holds a null
    character.  Otherwise it succeeds, and prepending one directory and
    then another leaves [PATH] as the second directory, the first one and
    the old value, joined by [':'], every other variable being as before. *)
Theorem path_prepend_twice :
  forall d1 d2 environ,
    (environ "PATH" = None -> path_prepend d1 environ = Raise KeyError)
    /\ (forall p,
           environ "PATH" = Some p ->
           has_nul d1 || has_nul p = true ->
           path_prepend d1 environ = Raise ValueError)
    /\ (forall p,
           environ "PATH" = Some p ->
           has_nul p = false -> has_nul d1 = false -> has_nul d2 = false ->
           exists e1 e2,
             path_prepend d1 environ = Ok e1
             /\ path_prepend d2 e1 = Ok e2
             /\ e2 "PATH" = Some (d2 ++ ":" ++ d1 ++ ":" ++ p)%string
             /\ forall k, k <> "PATH" -> e2 k = environ k).
Proof.
  intros d1 d2 environ.
  assert (N : forall d p, has_nul (String.concat ":" [d; p]) = has_nul d || has_nul p).
  { intros d p. cbn [String.concat]. now rewrite !has_nul_append. }
  unfold path_prepend, setitem. repeat split.
  - now intros ->.
  - intros p -> H. rewrite N, H. reflexivity.
  - intros p E Hp H1 H2. rewrite E, N, H1, Hp.
    cbn [String.eqb has_equals has_nul Ascii.eqb Bool.eqb orb andb].
    do 2 eexists. split; [reflexivity|].
    cbn [String.eqb Ascii.eqb Bool.eqb andb].
    rewrite N, H2. cbn [String.concat]. rewrite !has_nul_append, H1, Hp.
    cbn [has_nul Ascii.eqb Bool.eqb orb andb].
    split; [reflexivity|]. split.
    + reflexivity.
    + intros k Hk. apply String.eqb_neq in Hk. now rewrite Hk.
Qed.

Lemma path_prepend_twice_witness :
  (path_prepend "/opt/sub/bin" (fun _ => None) = Raise KeyError)
  /\ (path_prepend (String zero "/opt") sample_environ = Raise ValueError)
  /\ (exists e1 e2,
         path_prepend "/opt/sub/lib" sample_environ = Ok e1
         /\ path_prepend "/opt/sub/bin" e1 = Ok e2
         /\ e2 "PATH" = Some "/opt/sub/bin:/opt/sub/lib:/usr/bin:/bin"
         /\ forall k, k <> "PATH" -> e2 k = sample_environ k).
Proof.
  split; [|split].
  - apply (proj1 (path_prepend_twice "/opt/sub/bin" "" (fun _ => None))).
    reflexivity.
  - apply (proj1 (proj2 (path_prepend_twice (String zero "/opt") "" sample_environ))
             "/usr/bin:/bin"); reflexivity.
  - apply (proj2 (proj2 (path_prepend_twice "/opt/sub/lib" "/opt/sub/bin"
                           sample_environ))
             "/usr/bin:/bin"); reflexivity.
Defined.

(** ** [SubPaths] *)

Lemma rsplit_spec p :
  (fst (PosixPath.rsplit p) ++ snd (PosixPath.rsplit p) = p)%string
  /\ has_slash (snd (PosixPath.rsplit p)) = false
  /\ (fst (PosixPath.rsplit p) = "" \/ endswith_slash (fst (PosixPath.rsplit p)) = true).
Proof.
  induction p as [|c r (IHa & IHs & IHe)]; [simpl; auto|].
  cbn [PosixPath.rsplit]. destruct (PosixPath.rsplit r) as [h t].
  cbn [fst snd] in *.
  destruct (Ascii.eqb c "/") eqn:Ec.
  - cbn [fst snd String.append]. rewrite IHa. repeat split; auto.
    right. apply Ascii.eqb_eq in Ec. subst c.
    destruct h as [|x h]; [reflexivity|].
    destruct IHe as [IHe|IHe]; [discriminate | exact IHe].
  - destruct h as [|x h].
    + cbn [String.eqb fst snd String.append has_slash] in *.
      rewrite Ec, IHs, IHa. auto.
    + cbn [String.eqb fst snd String.append] in *. rewrite IHa.
      repeat split; auto. right.
      destruct IHe as [IHe|IHe]; [discriminate | exact IHe].
Qed.

(** X20.  The name of a sub, which begins its error messages, is the file
    name of the calling script: it holds no ['/'], and the script path is a
    directory part, empty or ending in ['/'], followed by it. *)
Theorem subpaths_name_is_file_name :
  forall env root_path,
    has_slash (SubPaths.name (SubPaths.init env root_path)) = false
    /\ exists dir,
         calling_script env
         = (dir ++ SubPaths.name (SubPaths.init env root_path))%string
         /\ (dir = "" \/ endswith_slash dir = true).
Proof.
  intros env root_path. cbn [SubPaths.init SubPaths.name].
  unfold PosixPath.basename.
  destruct (rsplit_spec (calling_script env)) as (Ha & Hs & He).
  split; [exact Hs|]. exists (fst (PosixPath.rsplit (calling_script env))).
  split; [now symmetry | exact He].
Qed.

(** ** Tokens that cannot be consumed *)

Lemma descends_consumable fs pre :
  forall d, descends fs d pre = true -> forallb consumable pre = true.
Proof.
  induction pre as [|t pre IH]; intros d H; [reflexivity|].
  simpl in *. apply andb_true_iff in H as [H Hpre].
  apply andb_true_iff in H as [Hc _]. rewrite Hc. simpl. now apply (IH _ Hpre).
Qed.

(** X21.  No returned command has an empty token or a token beginning with
    ['-'] among its consumed tokens: a file or directory of the command tree
    with such a name cannot be reached by its name. *)
Theorem consumed_tokens_are_consumable :
  forall fs argv paths sd cmd tr,
    run fs (find_command_path argv paths sd) = (Ok cmd, tr) ->
    forallb consumable (Command.tokens cmd) = true.
Proof.
  intros fs argv paths sd cmd tr H.
  returned_cases H; cbn [Command.tokens];
    rewrite ?forallb_app; cbn [forallb];
    repeat match goal with
           | Hd : descends _ _ _ = true |- _ =>
               rewrite (descends_consumable _ _ _ Hd); clear Hd
           | Hc : consumable _ = true |- _ => rewrite Hc; clear Hc
           end;
    reflexivity.
Qed.

Lemma consumed_tokens_are_consumable_witness :
  forallb consumable (Command.tokens sample_leaf) = true.
Proof.
  apply (consumed_tokens_are_consumable sample_fs
           ["deploy"; "staging"; "--force"; "now"] sample_paths None sample_leaf
           [IsDir "/opt/sub/commands/deploy"; IsDir "/opt/sub/commands/deploy/staging";
            AccessX "/opt/sub/commands/deploy/staging"]).
  reflexivity.
Defined.
